(** * Photo rotation scheduler

    A shallow embedding of [photo_rotation_scheduler.py] (class
    [PhotoScheduler]) and the properties of its rotation engine: the two
    persisted stores, the date resolver, the schedule evaluator, the photo
    selector and the two rotation operations.

    Conventions of the embedding.
    - Python [int] and the POSIX timestamps are [Z]; a timestamp is only
      ever compared, never computed with, and finite floats embed in an
      ordered way, so nothing is lost for the ordering.
    - Python [str] is [string]; comparison is the byte-wise lexicographic
      order, which on UTF-8 text is the code point order Python uses.
    - [set] is [gset], [dict] is [gmap], [list] is [list].
    - An exception is a value of [exn]; a call that may raise returns a
      [result].  [try ... except Exception] is [try_except].
    - The process state is the record [world]; every method of the class
      that mutates [self] or the disk is a function on (a part of) it. *)

From Stdlib Require Import ZArith String Ascii List Lia.
From Stdlib Require OrderedTypeEx.
From stdpp Require Import base option list gmap sets strings sorting.

Local Open Scope string_scope.
Local Open Scope Z_scope.

(** ** Exceptions *)

Inductive exn : Type :=
| ValueError | TypeError | OSError | RuntimeError | OverflowError | PlainException.

Inductive result (A : Type) : Type :=
| Ok (a : A)
| Raise (e : exn).
Arguments Ok {A} a.
Arguments Raise {A} e.

Global Instance result_ret : MRet result := fun A a => Ok a.

Global Instance result_bind : MBind result := fun A B k m =>
  match m with
  | Ok a => k a
  | Raise e => Raise e
  end.

Module Py.

(** [try: body / except Exception: handler]: every member of [exn] is an
    [Exception]. *)
Definition try_except {A} (body : result A) (handler : exn → result A) : result A :=
  match body with
  | Ok a => Ok a
  | Raise e => handler e
  end.

(** [try: body / except ValueError: handler]: anything else propagates. *)
Definition try_except_ValueError {A} (body : result A) (handler : result A) : result A :=
  match body with
  | Raise ValueError => handler
  | other => other
  end.

Definition value_or {A} (d : A) (m : result A) : A :=
  match m with
  | Ok a => a
  | Raise _ => d
  end.

End Py.

(** ** Files and JSON payloads *)

(** What [json.load] can hand back.  Numbers are integers here: no claim
    looks inside a persisted number. *)
#[warnings="-register-all"]
Inductive json : Type :=
| JNull
| JBool (b : bool)
| JNum (z : Z)
| JStr (s : string)
| JList (l : list json)
| JDict (d : list (string * json)).

(** A file on disk: absent, present but failing to open or parse (with the
    exception that [open]/[json.load] raises), or holding a payload. *)
Inductive file (A : Type) : Type :=
| Missing
| Unreadable (e : exn)
| Payload (a : A).
Arguments Missing {A}.
Arguments Unreadable {A} e.
Arguments Payload {A} a.

Definition file_exists {A} (f : file A) : bool :=
  match f with
  | Missing => false
  | _ => true
  end.

(** [with open(F, 'r') as f: json.load(f)] *)
Definition read_json {A} (f : file A) : result A :=
  match f with
  | Missing => Raise OSError
  | Unreadable e => Raise e
  | Payload a => Ok a
  end.

(** ** View-History Store *)

(** The hashable values a JSON list can contribute to a Python [set], up to
    Python equality ([True == 1], [False == 0]). *)
Inductive pykey : Type :=
| KNone
| KNum (z : Z)
| KStr (s : string).

Global Instance pykey_eq_dec : EqDecision pykey.
Proof. solve_decision. Defined.

Definition pykey_to_sum (k : pykey) : unit + (Z + string) :=
  match k with
  | KNone => inl tt
  | KNum z => inr (inl z)
  | KStr s => inr (inr s)
  end.

Definition pykey_of_sum (x : unit + (Z + string)) : pykey :=
  match x with
  | inl _ => KNone
  | inr (inl z) => KNum z
  | inr (inr s) => KStr s
  end.

Global Instance pykey_countable : Countable pykey.
Proof.
  apply (inj_countable' pykey_to_sum pykey_of_sum).
  intros k. destruct k; reflexivity.
Defined.

(** [hash(x)]: lists and dicts are unhashable. *)
Definition hash_key (j : json) : result pykey :=
  match j with
  | JNull => Ok KNone
  | JBool b => Ok (KNum (if b then 1 else 0))
  | JNum z => Ok (KNum z)
  | JStr s => Ok (KStr s)
  | JList _ | JDict _ => Raise TypeError
  end.

(** [set(data)] for a list [data]: elements are hashed left to right. *)
Fixpoint py_set (data : list json) : result (gset pykey) :=
  match data with
  | [] => Ok ∅
  | j :: rest =>
      k ← hash_key j;
      s ← py_set rest;
      Ok ({[ k ]} ∪ s)
  end.

Definition key_json (k : pykey) : json :=
  match k with
  | KNone => JNull
  | KNum z => JNum z
  | KStr s => JStr s
  end.

(** [self.viewed_photos], [LOG_FILE] and whether [LOG_FILE] can be opened
    for writing. *)
Record history_store : Type := mkHistory {
  viewed_photos : gset pykey;
  log_file : file json;
  log_writable : bool
}.

(** [load_viewed_photos] (l.214-222).  The inner [option] is [None] when
    the [try] block falls through to the final [return set()]. *)
Definition load_viewed_photos (f : file json) : result (gset pykey) :=
  r ← Py.try_except
        (if file_exists f then
           data ← read_json f;
           match data with
           | JList l => s ← py_set l; Ok (Some s)
           | _ => Ok (Some ∅)
           end
         else Ok None)
        (fun _ => Ok None);
  match r with
  | Some s => Ok s
  | None => Ok ∅
  end.

(** [json.dump(list(self.viewed_photos), f)] *)
Definition dump_viewed (s : gset pykey) : json :=
  JList (key_json <$> elements s).

(** [save_viewed_photos] (l.224-230): an I/O error is logged, not raised. *)
Definition save_viewed_photos (h : history_store) : history_store :=
  if log_writable h
  then mkHistory (viewed_photos h) (Payload (dump_viewed (viewed_photos h))) true
  else h.

Definition set_viewed (s : gset pykey) (h : history_store) : history_store :=
  mkHistory s (log_file h) (log_writable h).

(** [photo.name in self.viewed_photos] *)
Definition is_viewed (name : string) (h : history_store) : bool :=
  bool_decide (KStr name ∈ viewed_photos h).

(** ** Date Cache Store *)

(** [self.date_cache], [self.cache_dirty], [CACHE_FILE] and whether
    [CACHE_FILE] can be opened for writing.  The record is only ever
    written by [save_date_cache], so its payload is a mapping from names to
    timestamps; any other content counts as [Unreadable]. *)
Record cache_store : Type := mkCache {
  date_cache : gmap string Z;
  cache_dirty : bool;
  cache_file : file (gmap string Z);
  cache_writable : bool
}.

(** [load_date_cache] (l.53-60) *)
Definition load_date_cache (f : file (gmap string Z)) : result (gmap string Z) :=
  r ← Py.try_except
        (if file_exists f then
           data ← read_json f; Ok (Some data)
         else Ok None)
        (fun _ => Ok None);
  match r with
  | Some m => Ok m
  | None => Ok ∅
  end.

(** [save_date_cache] (l.62-70) *)
Definition save_date_cache (c : cache_store) : cache_store :=
  if negb (cache_dirty c) then c
  else if cache_writable c
       then mkCache (date_cache c) false (Payload (date_cache c)) true
       else c.

(** [filename in self.date_cache] and [self.date_cache[filename]] (l.77-78) *)
Definition cache_get (filename : string) (c : cache_store) : option Z :=
  date_cache c !! filename.

(** [self.date_cache[filename] = date; self.cache_dirty = True] (l.82-83) *)
Definition cache_put (filename : string) (date : Z) (c : cache_store) : cache_store :=
  mkCache (<[filename := date]> (date_cache c)) true (cache_file c) (cache_writable c).

(** [self.date_cache.clear(); self.cache_dirty = True] (l.547-548) *)
Definition cache_clear (c : cache_store) : cache_store :=
  mkCache ∅ true (cache_file c) (cache_writable c).


(** [get_photo_date] (l.72-84); [calc] is [_calculate_photo_date] applied
    to the file of that name. *)
Definition get_photo_date (calc : string → Z) (filename : string) (c : cache_store)
  : Z * cache_store :=
  match cache_get filename c with
  | Some d => (d, c)
  | None => let date := calc filename in (date, cache_put filename date c)
  end.

(** ** Date Resolver *)

(** A value stored under an EXIF tag: text, or something else (bytes, a
    number, a tuple) of which only the truth value matters. *)
Inductive exif_value : Type :=
| ExifText (s : string)
| ExifOther (truthy : bool).

Definition exif_truthy (v : exif_value) : bool :=
  match v with
  | ExifText s => negb (String.eqb s "")
  | ExifOther b => b
  end.

(** [os.stat_result]: [st_birthtime] exists on some platforms only. *)
Record stat_result : Type := mkStat {
  st_birthtime : option Z;
  st_ctime : Z;
  st_mtime : Z
}.

(** What the outside world answers for one photo path: the tags read by
    [Image.open(photo_path)] and [img.getexif()] (or the exception),
    [photo_path.stat()] (or the exception) and [time.time()]. *)
Record probe : Type := mkProbe {
  image_exif : result (gmap Z exif_value);
  path_stat : result stat_result;
  clock : Z
}.

(** DateTimeOriginal, DateTimeDigitized, DateTime (l.94) *)
Definition exif_tags : list Z := [36867; 36868; 306].

(** The first tag of [tags] with [tag in exif and exif[tag]]. *)
Fixpoint first_dated_tag (tags : list Z) (exif : gmap Z exif_value) : option exif_value :=
  match tags with
  | [] => None
  | tag :: rest =>
      match exif !! tag with
      | Some v => if exif_truthy v then Some v else first_dated_tag rest exif
      | None => first_dated_tag rest exif
      end
  end.

Section DateResolver.

(** The module constant set by the [PIL] import, [os.name == 'nt'], and
    [datetime.strptime(s, '%Y:%m:%d %H:%M:%S').timestamp()]. *)
Variable EXIF_AVAILABLE : bool.
Variable os_name_nt : bool.
Variable strptime_timestamp : string → result Z.

Definition parse_exif (v : exif_value) : result Z :=
  match v with
  | ExifText s => strptime_timestamp s
  | ExifOther _ => Raise TypeError
  end.

(** The [return] inside the loop over the tags (l.94-96): [Some t] when it
    is reached, [None] when the loop ends without returning. *)
Definition exif_lookup (exif : gmap Z exif_value) : result (option Z) :=
  match first_dated_tag exif_tags exif with
  | Some v => t ← parse_exif v; Ok (Some t)
  | None => Ok None
  end.

(** l.101-105 *)
Definition stat_time (st : stat_result) : Z :=
  match st_birthtime st with
  | Some b => b
  | None => if os_name_nt then st_ctime st else st_mtime st
  end.

(** [_calculate_photo_date] (l.86-108) *)
Definition _calculate_photo_date (p : probe) : result Z :=
  Py.try_except
    (found ← (if EXIF_AVAILABLE
              then Py.try_except (exif ← image_exif p; exif_lookup exif)
                                 (fun _ => Ok None)
              else Ok None);
     match found with
     | Some t => Ok t
     | None => st ← path_stat p; Ok (stat_time st)
     end)
    (fun _ => Ok (clock p)).

End DateResolver.

(** ** Schedule Evaluator *)

(** A naive [datetime]: the proleptic Gregorian ordinal of its date and the
    microseconds elapsed since midnight. *)
Record datetime : Type := mkDatetime {
  ordinal : Z;
  tod : Z
}.

Definition DAY_US : Z := 86400000000.

(** [date.max.toordinal()], the date 9999-12-31 *)
Definition MAX_ORDINAL : Z := 3652059.

Definition clock_us (hour minute : Z) : Z := (hour * 60 + minute) * 60000000.

(** [now.replace(hour=h, minute=m, second=0, microsecond=0)] *)
Definition replace_time (now : datetime) (hour minute : Z) : result datetime :=
  if (0 <=? hour) && (hour <? 24) && (0 <=? minute) && (minute <? 60)
  then Ok (mkDatetime (ordinal now) (clock_us hour minute))
  else Raise ValueError.

(** [t + delta] for a [timedelta] of [delta] microseconds *)
Definition dt_add (t : datetime) (delta : Z) : result datetime :=
  let total := tod t + delta in
  let day := ordinal t + total / DAY_US in
  if (1 <=? day) && (day <=? MAX_ORDINAL)
  then Ok (mkDatetime day (total mod DAY_US))
  else Raise OverflowError.

(** [t.replace(year=today.year, month=today.month, day=today.day)] *)
Definition on_date (today : Z) (t : datetime) : datetime :=
  mkDatetime today (tod t).

(** [a <= b] on [datetime] *)
Definition dt_le (a b : datetime) : Prop :=
  ordinal a < ordinal b ∨ (ordinal a = ordinal b ∧ tod a ≤ tod b).

Global Instance dt_le_dec : RelDecision dt_le.
Proof. intros a b. unfold dt_le. apply _. Defined.

(** [timedelta(hours=24/switches)] in microseconds.  A [timedelta] holds
    whole microseconds: the constructor rounds [24/switches] hours to the
    nearest one (for [2 <= switches <= 100] no tie arises). *)
Definition interval_us (switches : Z) : Z :=
  (2 * DAY_US + switches) / (2 * switches).

Definition digit_val (c : ascii) : option Z :=
  let n := Z.of_N (N_of_ascii c) in
  if (48 <=? n) && (n <=? 57) then Some (n - 48) else None.

(** [s.split(sep)] *)
Fixpoint split_on (sep : ascii) (s : string) : list string :=
  match s with
  | EmptyString => [EmptyString]
  | String c rest =>
      match split_on sep rest with
      | piece :: pieces =>
          if Ascii.eqb c sep then EmptyString :: piece :: pieces
          else String c piece :: pieces
      | [] => []
      end
  end.

(** The directive [%H] matches [2[0-3]|[0-1]\d|\d]. *)
Definition match_hour (cs : list ascii) : option Z :=
  match cs with
  | [d] => digit_val d
  | [d1; d2] =>
      match digit_val d1, digit_val d2 with
      | Some a, Some b =>
          if ((a =? 2) && (b <=? 3)) || (a <=? 1) then Some (a * 10 + b) else None
      | _, _ => None
      end
  | _ => None
  end.

(** The directive [%M] matches [[0-5]\d|\d]. *)
Definition match_minute (cs : list ascii) : option Z :=
  match cs with
  | [d] => digit_val d
  | [d1; d2] =>
      match digit_val d1, digit_val d2 with
      | Some a, Some b => if a <=? 5 then Some (a * 10 + b) else None
      | _, _ => None
      end
  | _ => None
  end.

(** [datetime.strptime(time_str, "%H:%M")], reduced to the hour and the
    minute of the result.  The text is ASCII, as typed in the entry field:
    the whole of it has to match, one or two digits on either side of the
    colon. *)
Definition strptime_HM (time_str : string) : result (Z * Z) :=
  match split_on ":" time_str with
  | [hs; ms] =>
      match match_hour (list_ascii_of_string hs), match_minute (list_ascii_of_string ms) with
      | Some h, Some m => Ok (h, m)
      | _, _ => Raise ValueError
      end
  | _ => Raise ValueError
  end.

(** [validate_time_format] (l.200-205) *)
Definition validate_time_format (time_str : string) : bool :=
  Py.value_or false
    (Py.try_except_ValueError (_ ← strptime_HM time_str; Ok true) (Ok false)).

(** [int(s)] on a run of ASCII digits.  The other spellings [int] accepts
    (a sign, blanks around, underscores between digits) do not pass
    [validate_time_format], which is called first. *)
Definition py_int (s : string) : result Z :=
  match mapM digit_val (list_ascii_of_string s) with
  | Some (d :: ds) => Ok (foldl (fun acc x => acc * 10 + x) 0 (d :: ds))
  | _ => Raise ValueError
  end.

(** [main_hour, main_min = map(int, self.main_time.get().split(':'))] *)
Definition hour_minute (main_time : string) : result (Z * Z) :=
  match split_on ":" main_time with
  | [hs; ms] => h ← py_int hs; m ← py_int ms; Ok (h, m)
  | _ => Raise ValueError
  end.

(** [get_switch_times] (l.232-257).  [now] is [datetime.now()],
    [main_time] the text of the time field and [switches_per_day] the
    outcome of [int(self.switches_per_day.get())]. *)
Definition get_switch_times (now : datetime) (main_time : string)
    (switches_per_day : result Z) : result (list datetime) :=
  Py.try_except
    (if negb (validate_time_format main_time) then Ok []
     else
       switches ← switches_per_day;
       if (switches <=? 0) || (100 <? switches) then Ok []
       else
         hm ← hour_minute main_time;
         main_datetime ← replace_time now hm.1 hm.2;
         if switches =? 1 then Ok [main_datetime]
         else
           let interval := interval_us switches in
           times ← mapM (fun i => dt_add main_datetime (interval * i)) (seqZ 0 switches);
           Ok (merge_sort dt_le (on_date (ordinal now) <$> times)))
    (fun _ => Ok []).

(** ** Bounded top-K selection *)

(** [heapq.nlargest(n, it)] and [heapq.nsmallest(n, it)] consume [it] once
    and never hold more than [n] candidates; they return the candidates
    best first.  [before x y] says that [x] ranks strictly ahead of [y]. *)
Section TopK.

Context {A : Type} (before : A → A → bool).

Fixpoint insert_ranked (x : A) (best : list A) : list A :=
  match best with
  | [] => [x]
  | y :: ys => if before x y then x :: y :: ys else y :: insert_ranked x ys
  end.

Definition keep_best (n : nat) (best : list A) (x : A) : list A :=
  take n (insert_ranked x best).

Definition top_n (n : nat) (items : list A) : list A :=
  foldl (keep_best n) [] items.

(** The full ranking, [sorted(items)] under [before]. *)
Definition rank_all (items : list A) : list A :=
  foldl (fun best x => insert_ranked x best) [] items.

End TopK.

(** A scanned photo: the tuple [(date, photo)].  Tuples compare
    lexicographically, and two paths of one directory compare as their
    file names do. *)
Definition dated : Type := Z * string.

Definition dated_lt (a b : dated) : bool :=
  (a.1 <? b.1) || ((a.1 =? b.1) && String.ltb a.2 b.2).

Definition nlargest (n : nat) (items : list dated) : list dated :=
  top_n (fun x y => dated_lt y x) n items.

Definition nsmallest (n : nat) (items : list dated) : list dated :=
  top_n dated_lt n items.

(** [random.sample(population, k)]: [k] draws without replacement.  The
    generator is a tape of draws; each draw picks a position of what is
    left of the population. *)
Fixpoint sample {A} (tape : list nat) (population : list A) (k : nat)
  : list A * list nat :=
  match k with
  | O => ([], tape)
  | S k' =>
      let i := (hd O tape mod length population)%nat in
      match population !! i with
      | Some x =>
          let '(rest, tape') := sample (tl tape) (delete i population) k' in
          (x :: rest, tape')
      | None => ([], tape)
      end
  end.

(** ** Directories *)

(** A directory entry as [iterdir] reports it: the name and the answer of
    [is_file()].  A directory is the list of its entries in the order
    [iterdir] yields them. *)
Record entry : Type := mkEntry {
  name : string;
  is_file : bool
}.

Definition PHOTO_EXTENSIONS : list string :=
  [".jpg"; ".jpeg"; ".png"; ".gif"; ".bmp"; ".tiff"].

Definition lower_ascii (c : ascii) : ascii :=
  let n := N_of_ascii c in
  if ((65 <=? n) && (n <=? 90))%N then ascii_of_N (n + 32) else c.

(** [s.lower()]; only the ASCII letters matter for the comparison with
    [PHOTO_EXTENSIONS]. *)
Fixpoint lower (s : string) : string :=
  match s with
  | EmptyString => EmptyString
  | String c rest => String (lower_ascii c) (lower rest)
  end.

(** The part of [s] that starts at its last dot. *)
Fixpoint from_last_dot (s : string) : option string :=
  match s with
  | EmptyString => None
  | String c rest =>
      match from_last_dot rest with
      | Some t => Some t
      | None => if Ascii.eqb c "." then Some s else None
      end
  end.

(** [PurePath.suffix]: with [i = name.rfind('.')], [name[i:]] when
    [0 < i < len(name) - 1] and [''] otherwise. *)
Definition suffix (n : string) : string :=
  match n with
  | EmptyString => EmptyString
  | String _ rest =>
      match from_last_dot rest with
      | Some t => if (1 <? String.length t)%nat then t else EmptyString
      | None => EmptyString
      end
  end.

Definition is_photo (e : entry) : bool :=
  is_file e && bool_decide (lower (suffix (name e)) ∈ PHOTO_EXTENSIONS).

(** [iter_photos] (l.290-301); [None] is a path that does not exist. *)
Definition iter_photos (directory : option (list entry)) : list string :=
  match directory with
  | None => []
  | Some entries => name <$> filter (fun e => is_photo e = true) entries
  end.

(** ** The process state *)

(** The library directory, its [Gallery] subdirectory, the files on which
    [unlink] and [rename] fail, and whether [mkdir] can create the
    gallery. *)
Record filesystem : Type := mkFs {
  library : option (list entry);
  gallery : option (list entry);
  unmovable : gset string;
  mkdir_ok : bool
}.

(** [self.operation_lock], [self.operation_cancelled], and the shutdown
    request of the coordinating thread: [Some k] when [on_closing] sets
    the flag after [k] more polls of it by the worker. *)
Record control : Type := mkControl {
  operation_lock : bool;
  operation_cancelled : bool;
  shutdown_in : option nat
}.

(** What the form holds when it is read: [int(self.photo_count.get())],
    [self.selection_mode.get()], whether the two resolved paths of
    [validate_paths] are equal, and whether a thread can be started. *)
Record settings : Type := mkSettings {
  photo_count : result Z;
  selection_mode : string;
  resolved_equal : result bool;
  thread_starts : bool
}.

(** The message handed to [end_operation]. *)
Inductive report : Type :=
| Switched (n : nat)
| MovedBack (n : nat)
| GalleryMissing
| ErrorReport (e : exn).

Record world : Type := mkWorld {
  fs : filesystem;
  hist : history_store;
  cache : cache_store;
  ctl : control;
  rng : list nat;
  form : settings;
  status : option report
}.

Definition with_fs (f : filesystem) (w : world) : world :=
  mkWorld f (hist w) (cache w) (ctl w) (rng w) (form w) (status w).
Definition with_hist (h : history_store) (w : world) : world :=
  mkWorld (fs w) h (cache w) (ctl w) (rng w) (form w) (status w).
Definition with_cache (c : cache_store) (w : world) : world :=
  mkWorld (fs w) (hist w) c (ctl w) (rng w) (form w) (status w).
Definition with_ctl (c : control) (w : world) : world :=
  mkWorld (fs w) (hist w) (cache w) c (rng w) (form w) (status w).
Definition with_rng (r : list nat) (w : world) : world :=
  mkWorld (fs w) (hist w) (cache w) (ctl w) r (form w) (status w).
Definition with_status (r : report) (w : world) : world :=
  mkWorld (fs w) (hist w) (cache w) (ctl w) (rng w) (form w) (Some r).

(** [self.operation_cancelled.is_set()], observed by the worker *)
Definition is_set (c : control) : bool * control :=
  match shutdown_in c with
  | Some O => (true, mkControl (operation_lock c) true None)
  | Some (S k) => (operation_cancelled c,
                   mkControl (operation_lock c) (operation_cancelled c) (Some k))
  | None => (operation_cancelled c, c)
  end.

Definition poll (w : world) : bool * world :=
  let '(cancelled, c) := is_set (ctl w) in (cancelled, with_ctl c w).

(** ** Photo Selector *)

Section Selector.

(** The Date Resolver's answer for the file of each name. *)
Variable calc : string → Z.

(** [list(unviewed_photos())] (l.307-313) over the photos [iter_photos]
    yields *)
Fixpoint unviewed_photos (photos : list string) (w : world) : list string * world :=
  match photos with
  | [] => ([], w)
  | photo :: rest =>
      let '(cancelled, w1) := poll w in
      if cancelled then ([], w1)
      else
        let '(out, w2) := unviewed_photos rest w1 in
        (if is_viewed photo (hist w1) then out else photo :: out, w2)
  end.

Definition lookup_date (photo : string) (w : world) : Z * world :=
  let '(date, c) := get_photo_date calc photo (cache w) in (date, with_cache c w).

(** [photo_with_date_gen()] drawing from [unviewed_photos()] (l.329-337):
    what it yields, the counter [processed[0]], and the state it leaves *)
Fixpoint photo_with_date_gen (photos : list string) (processed : nat) (w : world)
  : list dated * nat * world :=
  match photos with
  | [] => ([], processed, w)
  | photo :: rest =>
      let '(cancelled, w1) := poll w in
      if cancelled then ([], processed, w1)
      else if is_viewed photo (hist w1) then photo_with_date_gen rest processed w1
      else
        let '(cancelled', w2) := poll w1 in
        if cancelled' then ([], processed, w2)
        else
          let processed' := S processed in
          let w3 := if (processed' mod 5000 =? 0)%nat
                    then with_cache (save_date_cache (cache w2)) w2 else w2 in
          let '(date, w4) := lookup_date photo w3 in
          let '(out, n, w5) := photo_with_date_gen rest processed' w4 in
          ((date, photo) :: out, n, w5)
  end.

(** [all_photos_with_date()] (l.354-361) *)
Fixpoint all_photos_with_date (photos : list string) (processed : nat) (w : world)
  : list dated * nat * world :=
  match photos with
  | [] => ([], processed, w)
  | photo :: rest =>
      let '(cancelled, w1) := poll w in
      if cancelled then ([], processed, w1)
      else
        let '(date, w2) := lookup_date photo w1 in
        let '(out, n, w3) := all_photos_with_date rest (S processed) w2 in
        ((date, photo) :: out, n, w3)
  end.

(** [count = max(1, min(count, 10000))] *)
Definition clamp_count (count : Z) : nat :=
  Z.to_nat (Z.max 1 (Z.min count 10000)).

(** [self.viewed_photos.clear(); self.save_viewed_photos()] *)
Definition reset_viewed (w : world) : world :=
  with_hist (save_viewed_photos (set_viewed ∅ (hist w))) w.

Definition flush_cache (w : world) : world :=
  with_cache (save_date_cache (cache w)) w.

(** [random.sample(unviewed, min(count, len(unviewed)))] *)
Definition draw (count : nat) (unviewed : list string) (w : world) : list string * world :=
  let '(selected, tape) := sample (rng w) unviewed (count `min` length unviewed) in
  (selected, with_rng tape w).

(** [select_photos] (l.303-371) *)
Definition select_photos (count : Z) (mode : string) (w : world) : list string * world :=
  let count := clamp_count count in
  let photos := iter_photos (library (fs w)) in
  if String.eqb mode "Random" then
    let '(unviewed, w1) := unviewed_photos photos w in
    if (length unviewed <? count)%nat then
      let w2 := reset_viewed w1 in
      draw count (iter_photos (library (fs w2))) w2
    else draw count unviewed w1
  else
    let rank := if String.eqb mode "Newest" then nlargest else nsmallest in
    let '(scanned, _, w1) := photo_with_date_gen photos 0 w in
    let selected := snd <$> rank count scanned in
    let w2 := flush_cache w1 in
    if (length selected <? count)%nat then
      let w3 := reset_viewed w2 in
      let '(scanned', _, w4) := all_photos_with_date (iter_photos (library (fs w3))) 0 w3 in
      (snd <$> rank count scanned', flush_cache w4)
    else (selected, w2).

End Selector.

(** ** Rotation Coordinator *)

(** [path.exists()] for [directory / n] *)
Definition exists_in (directory : option (list entry)) (n : string) : bool :=
  match directory with
  | Some entries => bool_decide (n ∈ name <$> entries)
  | None => false
  end.

Definition remove_entry (n : string) (entries : list entry) : list entry :=
  filter (fun e => name e ≠ n) entries.

(** What a directory lists once a file called [n] has been renamed into
    it: the file replaces whatever carried that name. *)
Definition add_entry (n : string) (entries : list entry) : list entry :=
  remove_entry n entries ++ [mkEntry n true].

(** [photo.unlink()] for [photo] in the gallery *)
Definition unlink_gallery (photo : string) (f : filesystem) : result filesystem :=
  if bool_decide (photo ∈ unmovable f) then Raise OSError
  else Ok (mkFs (library f) (remove_entry photo <$> gallery f) (unmovable f) (mkdir_ok f)).

(** [photo.rename(library_path / photo.name)] for [photo] in the gallery *)
Definition rename_to_library (photo : string) (f : filesystem) : result filesystem :=
  if bool_decide (photo ∈ unmovable f) then Raise OSError
  else match library f with
       | Some lib => Ok (mkFs (Some (add_entry photo lib))
                              (remove_entry photo <$> gallery f) (unmovable f) (mkdir_ok f))
       | None => Raise OSError
       end.

(** [photo.rename(gallery_path / photo.name)] for [photo] in the library *)
Definition rename_to_gallery (photo : string) (f : filesystem) : result filesystem :=
  if bool_decide (photo ∈ unmovable f) then Raise OSError
  else match gallery f with
       | Some gal => Ok (mkFs (remove_entry photo <$> library f)
                              (Some (add_entry photo gal)) (unmovable f) (mkdir_ok f))
       | None => Raise OSError
       end.

(** [gallery_path.mkdir(parents=True, exist_ok=True)] *)
Definition mkdir_gallery (f : filesystem) : result filesystem :=
  match gallery f with
  | Some _ => Ok f
  | None => if mkdir_ok f
            then Ok (mkFs (library f) (Some []) (unmovable f) (mkdir_ok f))
            else Raise OSError
  end.

(** How the loop over the gallery ends: it ran through, with the counter
    and [deleted_dupes], or the worker returned on cancellation. *)
Inductive pass_end : Type :=
| PassDone (moved : nat) (deleted_dupes : list string)
| PassCancelled.

(** The loop that empties the gallery, the same in [_switch_photos_worker]
    (l.421-433) and in [_clear_gallery_worker] (l.508-520).  A failure on
    one file is logged and the loop goes on. *)
Fixpoint gallery_pass (photos : list string) (moved : nat) (deleted_dupes : list string)
    (w : world) : pass_end * world :=
  match photos with
  | [] => (PassDone moved deleted_dupes, w)
  | photo :: rest =>
      let '(cancelled, w1) := poll w in
      if cancelled then (PassCancelled, w1)
      else if exists_in (library (fs w1)) photo then
        match unlink_gallery photo (fs w1) with
        | Ok f => gallery_pass rest moved (deleted_dupes ++ [photo]) (with_fs f w1)
        | Raise _ => gallery_pass rest moved deleted_dupes w1
        end
      else
        match rename_to_library photo (fs w1) with
        | Ok f => gallery_pass rest (S moved) deleted_dupes (with_fs f w1)
        | Raise _ => gallery_pass rest moved deleted_dupes w1
        end
  end.

(** [self.viewed_photos.discard(filename)] for every deleted duplicate *)
Definition discard_all (names : list string) (s : gset pykey) : gset pykey :=
  foldl (fun acc n => acc ∖ {[ KStr n ]}) s names.

(** l.435-440 and l.522-527 *)
Definition forget_dupes (deleted_dupes : list string) (w : world) : world :=
  match deleted_dupes with
  | [] => w
  | _ => with_hist (save_viewed_photos
                      (set_viewed (discard_all deleted_dupes (viewed_photos (hist w))) (hist w))) w
  end.

(** The emptying of the gallery, shared by the two workers: the loop and
    the update of the viewed set (l.418-440, l.505-527).  [None] when the
    worker returned on cancellation, else the number of files moved back. *)
Definition empty_gallery (w : world) : option nat * world :=
  match gallery_pass (iter_photos (gallery (fs w))) 0 [] w with
  | (PassCancelled, w1) => (None, w1)
  | (PassDone moved deleted_dupes, w1) => (Some moved, forget_dupes deleted_dupes w1)
  end.

(** The loop that fills the gallery (l.450-460); [None] when the worker
    returned on cancellation. *)
Fixpoint fill_gallery (selected : list string) (moved : nat) (w : world)
  : option nat * world :=
  match selected with
  | [] => (Some moved, w)
  | photo :: rest =>
      let '(cancelled, w1) := poll w in
      if cancelled then (None, w1)
      else
        match rename_to_gallery photo (fs w1) with
        | Ok f =>
            let h := set_viewed ({[ KStr photo ]} ∪ viewed_photos (hist w1)) (hist w1) in
            fill_gallery rest (S moved) (with_hist h (with_fs f w1))
        | Raise _ => fill_gallery rest moved w1
        end
  end.

(** How the body of a worker ends. *)
Inductive finish : Type :=
| Completed
| Cancelled
| Failed (e : exn).

(** [self.operation_lock.release()] *)
Definition release (c : control) : result control :=
  if operation_lock c
  then Ok (mkControl false (operation_cancelled c) (shutdown_in c))
  else Raise RuntimeError.

(** The [except Exception] and [finally] clauses shared by the two
    workers (l.466-470, l.531-535). *)
Definition finish_worker (r : finish * world) : result (finish * world) :=
  let '(fin, w) := r in
  let w' := match fin with
            | Failed e => with_status (ErrorReport e) w
            | _ => w
            end in
  c ← release (ctl w');
  Ok (fin, with_ctl c w').

Section Coordinator.

Variable calc : string → Z.

(** The selection and the filling of the gallery (l.445-464) *)
Definition repopulate (w : world) : finish * world :=
  match photo_count (form w) with
  | Raise e => (Failed e, w)
  | Ok count =>
      let '(selected, w3) := select_photos calc count (selection_mode (form w)) w in
      match fill_gallery selected 0 w3 with
      | (None, w4) => (Cancelled, w4)
      | (Some moved_to_gallery, w4) =>
          (Completed,
           with_status (Switched moved_to_gallery)
             (with_hist (save_viewed_photos (hist w4)) w4))
      end
  end.

(** The [try] block of [_switch_photos_worker] (l.407-464) *)
Definition switch_body (w : world) : finish * world :=
  match library (fs w) with
  | None => (Failed PlainException, w)
  | Some _ =>
      match mkdir_gallery (fs w) with
      | Raise e => (Failed e, w)
      | Ok f =>
          match empty_gallery (with_fs f w) with
          | (None, w1) => (Cancelled, w1)
          | (Some _, w2) => repopulate w2
          end
      end
  end.

(** [_switch_photos_worker] (l.406-470) *)
Definition _switch_photos_worker (w : world) : result (finish * world) :=
  finish_worker (switch_body w).

End Coordinator.

(** The [try] block of [_clear_gallery_worker] (l.495-530) *)
Definition clear_body (w : world) : finish * world :=
  match gallery (fs w) with
  | None => (Completed, with_status GalleryMissing w)
  | Some _ =>
      match empty_gallery w with
      | (None, w1) => (Cancelled, w1)
      | (Some count, w1) => (Completed, with_status (MovedBack count) w1)
      end
  end.

(** [_clear_gallery_worker] (l.494-535) *)
Definition _clear_gallery_worker (w : world) : result (finish * world) :=
  finish_worker (clear_body w).

(** [validate_paths] (l.207-212) *)
Definition validate_paths (s : settings) : result bool :=
  same ← resolved_equal s;
  if (same : bool) then Raise ValueError else Ok true.

(** How a request for an operation ends: the lock was busy, the request
    was turned down after the lock had been taken, or the worker thread
    was started. *)
Inductive launch : Type :=
| Busy
| Rejected (e : exn)
| Started.

(** [self.operation_lock.acquire(blocking=False)] succeeded;
    [self.operation_cancelled.clear()] *)
Definition accept (w : world) : world :=
  with_ctl (mkControl true false (shutdown_in (ctl w))) w.

(** An [except ValueError] clause of the launchers: tell the user, release
    the lock, return. *)
Definition turn_down (e : exn) (w : world) : result (launch * world) :=
  c ← release (ctl w);
  Ok (Rejected e, with_ctl c w).

Definition start_thread (w : world) : result (launch * world) :=
  if thread_starts (form w) then Ok (Started, w) else Raise RuntimeError.

(** l.382-386 *)
Definition read_count (s : settings) : result Z :=
  count ← photo_count s;
  if (count : Z) <=? 0 then Raise ValueError else Ok count.

(** The outer [try] block of [switch_photos_async] (l.381-401) *)
Definition switch_launch (w : world) : result (launch * world) :=
  match read_count (form w) with
  | Raise ValueError => turn_down ValueError w
  | Raise e => Raise e
  | Ok _ =>
      match validate_paths (form w) with
      | Raise ValueError => turn_down ValueError w
      | Raise e => Raise e
      | Ok _ => start_thread w
      end
  end.

(** [switch_photos_async] (l.373-404) *)
Definition switch_photos_async (w : world) : result (launch * world) :=
  if operation_lock (ctl w) then Ok (Busy, w)
  else
    let w1 := accept w in
    Py.try_except (switch_launch w1) (fun e => turn_down e w1).

(** The outer [try] block of [clear_gallery_async] (l.480-489) *)
Definition clear_launch (w : world) : result (launch * world) :=
  match validate_paths (form w) with
  | Raise ValueError => turn_down ValueError w
  | Raise e => Raise e
  | Ok _ => start_thread w
  end.

(** [clear_gallery_async] (l.472-492) *)
Definition clear_gallery_async (w : world) : result (launch * world) :=
  if operation_lock (ctl w) then Ok (Busy, w)
  else
    let w1 := accept w in
    Py.try_except (clear_launch w1) (fun e => turn_down e w1).

(** [reset_history] (l.537-551) *)
Definition reset_history (w : world) : world :=
  if operation_lock (ctl w) then w
  else
    let w1 := reset_viewed w in
    with_cache (save_date_cache (cache_clear (cache w1))) w1.

(** [on_closing] (l.573-578), as far as the state goes *)
Definition on_closing (w : world) : world :=
  let c := ctl w in
  flush_cache (with_ctl (mkControl (operation_lock c) true (shutdown_in c)) w).

(** * Properties *)

(** ** View-History Store *)

Definition hashable (j : json) : bool :=
  match j with
  | JList _ | JDict _ => false
  | _ => true
  end.

(** [s] is the set of the elements of the list [l]: every element of [l]
    is a member of [s], and [s] has no other member. *)
Definition set_of_elements (l : list json) (s : gset pykey) : Prop :=
  (∀ j, j ∈ l → ∃ k, hash_key j = Ok k ∧ k ∈ s)
  ∧ (∀ k, k ∈ s → ∃ j, j ∈ l ∧ hash_key j = Ok k).

Lemma hash_key_hashable j : hashable j = true → ∃ k, hash_key j = Ok k.
Proof. destruct j; simpl; intros H; try discriminate; eauto. Qed.

Lemma hash_key_unhashable j : hashable j = false → hash_key j = Raise TypeError.
Proof. destruct j; simpl; intros H; try discriminate; reflexivity. Qed.

Lemma py_set_hashable l :
  forallb hashable l = true → ∃ s, py_set l = Ok s ∧ set_of_elements l s.
Proof.
  induction l as [|j l IH]; simpl; intros H.
  - exists ∅. split; [reflexivity|]. split.
    + intros j Hj. by apply elem_of_nil in Hj.
    + intros k Hk. by apply not_elem_of_empty in Hk.
  - apply andb_true_iff in H as [Hj Hl].
    destruct (hash_key_hashable j Hj) as [k Hk].
    destruct (IH Hl) as (s & Hs & Hin & Hout).
    exists ({[ k ]} ∪ s). rewrite Hk, Hs. split; [reflexivity|]. split.
    + intros j' Hj'. apply elem_of_cons in Hj'. destruct Hj' as [Heq|Hj'].
      * subst j'. exists k. split; [done|].
        apply elem_of_union. left. by apply elem_of_singleton.
      * destruct (Hin j' Hj') as (k' & Hk1 & Hk2). exists k'. split; [done|].
        apply elem_of_union. by right.
    + intros k' Hk'. apply elem_of_union in Hk'. destruct Hk' as [Hk'|Hk'].
      * apply elem_of_singleton in Hk'. subst k'. exists j. split; [left|done].
      * destruct (Hout k' Hk') as (j' & Hj1 & Hj2). exists j'. split; [by right|done].
Qed.

Lemma py_set_unhashable l :
  forallb hashable l = false → py_set l = Raise TypeError.
Proof.
  induction l as [|j l IH]; simpl; intros H; [discriminate|].
  apply andb_false_iff in H as [Hj|Hl].
  - by rewrite (hash_key_unhashable j Hj).
  - rewrite (IH Hl). destruct j; reflexivity.
Qed.

(** C8, as the code has it.  Loading the view history never raises.  A
    missing file, a file that cannot be read or parsed, and a payload that
    is not a list give the empty set.  A list of hashable values (names,
    numbers, booleans, null) gives the set of its elements; a list with an
    unhashable element (a nested list or object) gives the empty set. *)
Theorem load_viewed_photos_total (f : file json) :
  ∃ s, load_viewed_photos f = Ok s ∧
       match f with
       | Payload (JList l) =>
           if forallb hashable l then set_of_elements l s else s = ∅
       | _ => s = ∅
       end.
Proof.
  destruct f as [|e|j]; [by exists ∅ | by exists ∅ |].
  destruct j as [|b|z|s|l|d]; try by exists ∅.
  unfold load_viewed_photos. simpl.
  destruct (forallb hashable l) eqn:Hl.
  - destruct (py_set_hashable l Hl) as (s & Hs & Hset).
    exists s. by rewrite Hs.
  - rewrite (py_set_unhashable l Hl). by exists ∅.
Qed.

(** C8, as the claim words it, fails on the list [["a.jpg", ["b.jpg"]]]:
    [set(data)] raises [TypeError], the handler returns the empty set, and
    the element ["a.jpg"] is lost. *)
Lemma load_viewed_photos_nested_list :
  ¬ (∃ s, load_viewed_photos (Payload (JList [JStr "a.jpg"; JList [JStr "b.jpg"]])) = Ok s
          ∧ set_of_elements [JStr "a.jpg"; JList [JStr "b.jpg"]] s).
Proof.
  intros (s & Hload & Hin & _).
  assert (load_viewed_photos (Payload (JList [JStr "a.jpg"; JList [JStr "b.jpg"]]))
          = Ok ∅) as Hempty by reflexivity.
  rewrite Hempty in Hload. injection Hload as <-.
  destruct (Hin (JStr "a.jpg")) as (k & _ & Hk); [left|].
  by apply not_elem_of_empty in Hk.
Qed.

(** ** Date Cache Store *)


Lemma load_date_cache_total f : ∃ m, load_date_cache f = Ok m.
Proof. destruct f; simpl; eauto. Qed.










Lemma dump_viewed_empty : dump_viewed ∅ = JList [].
Proof. unfold dump_viewed. by rewrite elements_empty. Qed.

(** C10.  With no rotation active, [reset_history] empties the viewed set
    and writes the empty list to its record, empties the date cache, and
    flushes it from a dirty state: the cache record then holds the empty
    mapping, and every later date lookup goes back to the resolver. *)
Theorem reset_history_clears_date_cache (calc : string → Z) (w : world) :
  operation_lock (ctl w) = false →
  viewed_photos (hist (reset_history w)) = ∅
  ∧ (log_writable (hist w) = true → log_file (hist (reset_history w)) = Payload (JList []))
  ∧ date_cache (cache (reset_history w)) = ∅
  ∧ cache (reset_history w) = save_date_cache (cache_clear (cache w))
  ∧ cache_dirty (cache_clear (cache w)) = true
  ∧ (cache_writable (cache w) = true →
     cache_file (cache (reset_history w)) = Payload ∅
     ∧ cache_dirty (cache (reset_history w)) = false)
  ∧ (∀ filename,
       get_photo_date calc filename (cache (reset_history w))
       = (calc filename, cache_put filename (calc filename) (cache (reset_history w)))).
Proof.
  intros Hlock. unfold reset_history. rewrite Hlock.
  unfold reset_viewed, save_viewed_photos, save_date_cache, cache_clear, set_viewed.
  simpl.
  destruct (log_writable (hist w)) eqn:Hlog, (cache_writable (cache w)) eqn:Hcache;
    simpl; rewrite ?dump_viewed_empty;
    repeat split; try done;
    intros filename; unfold get_photo_date, cache_get; simpl; by rewrite lookup_empty.
Qed.

Lemma reset_history_clears_date_cache_witness :
  let w := mkWorld (mkFs (Some [mkEntry "a.jpg" true]) (Some []) ∅ true)
             (mkHistory {[ KStr "b.jpg" ]} Missing true)
             (mkCache {[ "a.jpg" := 1700000000 ]} false (Payload {[ "a.jpg" := 1700000000 ]}) true)
             (mkControl false false None) [] (mkSettings (Ok 1) "Newest" (Ok false) true) None in
  viewed_photos (hist (reset_history w)) = ∅
  ∧ date_cache (cache (reset_history w)) = ∅
  ∧ cache_file (cache (reset_history w)) = Payload ∅.
Proof.
  intros w.
  destruct (reset_history_clears_date_cache (fun _ => 0) w eq_refl)
    as (Hv & _ & Hc & _ & _ & Hf & _).
  destruct (Hf eq_refl) as [Hfile _].
  exact (conj Hv (conj Hc Hfile)).
Defined.

(** ** Date Resolver *)

Section DateResolverFacts.

Variable EXIF_AVAILABLE : bool.
Variable os_name_nt : bool.
Variable strptime_timestamp : string → result Z.




End DateResolverFacts.

(** ** Schedule Evaluator *)

Global Instance dt_le_trans : Transitive dt_le.
Proof. intros a b c. unfold dt_le. lia. Qed.

Global Instance dt_le_total : Total dt_le.
Proof. intros a b. unfold dt_le. lia. Qed.

Global Instance dt_le_antisymm : AntiSymm (=) dt_le.
Proof.
  intros [oa ta] [ob tb]. unfold dt_le. simpl. intros H1 H2.
  f_equal; lia.
Qed.

Lemma digit_val_range c a : digit_val c = Some a → 0 ≤ a ≤ 9.
Proof.
  unfold digit_val. intros H.
  destruct ((48 <=? Z.of_N (N_of_ascii c)) && (Z.of_N (N_of_ascii c) <=? 57)) eqn:E;
    [|discriminate].
  injection H as <-. apply andb_true_iff in E as [E1 E2]. lia.
Qed.

Lemma match_hour_int cs h :
  match_hour cs = Some h →
  mapM digit_val cs ≠ Some []
  ∧ (∃ ds, mapM digit_val cs = Some ds ∧ foldl (fun acc x => acc * 10 + x) 0 ds = h)
  ∧ 0 ≤ h < 24.
Proof.
  destruct cs as [|d1 [|d2 [|d3 cs]]]; simpl; try discriminate.
  - intros H. pose proof (digit_val_range _ _ H). rewrite H. simpl.
    split; [discriminate|]. split; [|lia]. exists [h]. split; [done|]. simpl. lia.
  - destruct (digit_val d1) as [a|] eqn:Ha; [|discriminate].
    destruct (digit_val d2) as [b|] eqn:Hb; [|discriminate].
    pose proof (digit_val_range _ _ Ha). pose proof (digit_val_range _ _ Hb).
    destruct (((a =? 2) && (b <=? 3)) || (a <=? 1)) eqn:E; [|discriminate].
    intros H'. injection H' as <-. simpl.
    split; [discriminate|]. split.
    + exists [a; b]. split; [done|]. simpl. lia.
    + apply orb_true_iff in E as [E|E]; [apply andb_true_iff in E as [E1 E2]|]; lia.
Qed.

Lemma match_minute_int cs m :
  match_minute cs = Some m →
  mapM digit_val cs ≠ Some []
  ∧ (∃ ds, mapM digit_val cs = Some ds ∧ foldl (fun acc x => acc * 10 + x) 0 ds = m)
  ∧ 0 ≤ m < 60.
Proof.
  destruct cs as [|d1 [|d2 [|d3 cs]]]; simpl; try discriminate.
  - intros H. pose proof (digit_val_range _ _ H). rewrite H. simpl.
    split; [discriminate|]. split; [|lia]. exists [m]. split; [done|]. simpl. lia.
  - destruct (digit_val d1) as [a|] eqn:Ha; [|discriminate].
    destruct (digit_val d2) as [b|] eqn:Hb; [|discriminate].
    pose proof (digit_val_range _ _ Ha). pose proof (digit_val_range _ _ Hb).
    destruct (a <=? 5) eqn:E; [|discriminate].
    intros H'. injection H' as <-. simpl.
    split; [discriminate|]. split.
    + exists [a; b]. split; [done|]. simpl. lia.
    + lia.
Qed.

Lemma py_int_digits s ds v :
  mapM digit_val (list_ascii_of_string s) = Some ds → ds ≠ [] →
  foldl (fun acc x => acc * 10 + x) 0 ds = v → py_int s = Ok v.
Proof.
  intros Hds Hne Hv. unfold py_int. rewrite Hds.
  destruct ds as [|d ds]; [done|]. by rewrite Hv.
Qed.

(** A text that [strptime] accepts splits into the same hour and minute. *)
Lemma strptime_HM_hour_minute s h m :
  strptime_HM s = Ok (h, m) →
  hour_minute s = Ok (h, m) ∧ 0 ≤ h < 24 ∧ 0 ≤ m < 60.
Proof.
  unfold strptime_HM, hour_minute.
  destruct (split_on ":" s) as [|hs [|ms [|x xs]]]; try discriminate.
  destruct (match_hour (list_ascii_of_string hs)) as [h'|] eqn:Hh; [|discriminate].
  destruct (match_minute (list_ascii_of_string ms)) as [m'|] eqn:Hm; [|discriminate].
  intros H. injection H as <- <-.
  destruct (match_hour_int _ _ Hh) as (Hne1 & (ds1 & Hds1 & Hv1) & Hr1).
  destruct (match_minute_int _ _ Hm) as (Hne2 & (ds2 & Hds2 & Hv2) & Hr2).
  rewrite (py_int_digits hs ds1 h' Hds1), (py_int_digits ms ds2 m' Hds2);
    try done; congruence.
Qed.

Lemma validate_time_format_strptime s :
  validate_time_format s = true ↔ ∃ h m, strptime_HM s = Ok (h, m).
Proof.
  unfold validate_time_format. split.
  - destruct (strptime_HM s) as [[h m]|e]; [eauto|].
    unfold strptime_HM. intros H. exfalso.
    destruct e; simpl in H; discriminate.
  - intros (h & m & ->). reflexivity.
Qed.

Lemma mapM_result_Ok {A B} (f : A → result B) (g : A → B) (l : list A) :
  (∀ x, x ∈ l → f x = Ok (g x)) → mapM f l = Ok (g <$> l).
Proof.
  induction l as [|x l IH]; intros H; [reflexivity|].
  simpl. rewrite (H x) by left. simpl.
  rewrite IH; [reflexivity|]. intros y Hy. apply H. by right.
Qed.

(** The interval is a day divided by the number of switches, to the
    nearest microsecond. *)
Lemma interval_us_nearest n :
  0 < n → - n < 2 * (n * interval_us n - DAY_US) ≤ n.
Proof.
  intros Hn. unfold interval_us.
  pose proof (Z.mul_div_le (2 * DAY_US + n) (2 * n) ltac:(lia)).
  pose proof (Z.mul_succ_div_gt (2 * DAY_US + n) (2 * n) ltac:(lia)).
  lia.
Qed.


Lemma dt_add_in_range now h m n i :
  1 ≤ ordinal now < MAX_ORDINAL → 0 ≤ h < 24 → 0 ≤ m < 60 →
  1 < n ≤ 100 → i ∈ seqZ 0 n →
  dt_add (mkDatetime (ordinal now) (clock_us h m)) (interval_us n * i)
  = Ok (mkDatetime (ordinal now + (clock_us h m + interval_us n * i) / DAY_US)
                   ((clock_us h m + interval_us n * i) mod DAY_US)).
Proof.
  intros Hday Hh Hm Hn Hi. apply elem_of_seqZ in Hi.
  pose proof (interval_us_nearest n ltac:(lia)) as Hiv.
  unfold dt_add. simpl.
  assert (0 ≤ interval_us n * i < DAY_US) as Hoff.
  { unfold DAY_US in *. nia. }
  assert (0 ≤ clock_us h m < DAY_US) as Hclock.
  { unfold clock_us, DAY_US. lia. }
  assert (0 ≤ (clock_us h m + interval_us n * i) / DAY_US ≤ 1) as Hq.
  { split.
    - apply Z.div_pos; unfold DAY_US in *; lia.
    - apply Z.lt_succ_r. apply Z.div_lt_upper_bound; unfold DAY_US in *; lia. }
  unfold MAX_ORDINAL in *.
  destruct ((1 <=? _) && (_ <=? 3652059)) eqn:E; [reflexivity|].
  apply andb_false_iff in E as [E|E]; lia.
Qed.

(** The switch times before sorting: the base time plus [i] intervals,
    brought back onto today's date. *)
Definition spaced_today (now : datetime) (h m n : Z) : list datetime :=
  (fun i => mkDatetime (ordinal now) ((clock_us h m + interval_us n * i) mod DAY_US))
    <$> seqZ 0 n.




Lemma get_switch_times_valid now s h m n :
  strptime_HM s = Ok (h, m) → 1 ≤ n ≤ 100 →
  get_switch_times now s (Ok n)
  = Py.try_except
      (if n =? 1 then Ok [mkDatetime (ordinal now) (clock_us h m)]
       else
         times ← mapM (fun i => dt_add (mkDatetime (ordinal now) (clock_us h m))
                                       (interval_us n * i)) (seqZ 0 n);
         Ok (merge_sort dt_le (on_date (ordinal now) <$> times)))
      (fun _ => Ok []).
Proof.
  intros Hs Hn. unfold get_switch_times.
  assert (validate_time_format s = true) as ->
    by (apply validate_time_format_strptime; eauto).
  destruct (strptime_HM_hour_minute s h m Hs) as (-> & Hh & Hm). simpl.
  destruct ((n <=? 0) || (100 <? n)) eqn:E.
  { apply orb_true_iff in E as [E|E]; lia. }
  unfold replace_time.
  destruct ((0 <=? h) && (h <? 24) && (0 <=? m) && (m <? 60)) eqn:E'; [reflexivity|].
  repeat (apply andb_false_iff in E' as [E'|E']); lia.
Qed.

Lemma get_switch_times_spaced now s h m n :
  1 ≤ ordinal now < MAX_ORDINAL →
  strptime_HM s = Ok (h, m) → 1 < n ≤ 100 →
  get_switch_times now s (Ok n) = Ok (merge_sort dt_le (spaced_today now h m n)).
Proof.
  intros Hday Hs Hn. rewrite (get_switch_times_valid now s h m n Hs) by lia.
  destruct (strptime_HM_hour_minute s h m Hs) as (_ & Hh & Hm).
  destruct (n =? 1) eqn:E; [lia|].
  rewrite (mapM_result_Ok _
             (fun i => mkDatetime
                         (ordinal now + (clock_us h m + interval_us n * i) / DAY_US)
                         ((clock_us h m + interval_us n * i) mod DAY_US))).
  - simpl. unfold spaced_today. by rewrite <- list_fmap_compose.
  - intros i Hi. by apply dt_add_in_range.
Qed.



(** ** Bounded top-K selection *)

Section TopKFacts.

Context {A : Type} (before : A → A → bool).

(** The truncated buffer gives the head of the full ranking. *)
Lemma take_cons_take (n : nat) (y : A) (ys : list A) :
  take n (y :: take n ys) = take n (y :: ys).
Proof.
  destruct n as [|n]; [reflexivity|]. simpl. f_equal.
  rewrite take_take. f_equal. lia.
Qed.

Lemma take_insert_ranked (n : nat) (x : A) (l : list A) :
  take n (insert_ranked before x (take n l)) = take n (insert_ranked before x l).
Proof.
  revert n. induction l as [|y ys IH]; intros n.
  - by rewrite take_nil.
  - destruct n as [|n]; [reflexivity|]. simpl.
    destruct (before x y).
    + simpl. f_equal. apply take_cons_take.
    + simpl. f_equal. apply IH.
Qed.

Lemma foldl_keep_best (n : nat) (items best : list A) :
  foldl (keep_best before n) (take n best) items
  = take n (foldl (fun b x => insert_ranked before x b) best items).
Proof.
  revert best. induction items as [|x items IH]; intros best; [reflexivity|].
  simpl. unfold keep_best at 2. rewrite take_insert_ranked.
  apply (IH (insert_ranked before x best)).
Qed.

Lemma top_n_rank_all (n : nat) (items : list A) :
  top_n before n items = take n (rank_all before items).
Proof. unfold top_n, rank_all. by rewrite <- foldl_keep_best, take_nil. Qed.

Lemma insert_ranked_perm (x : A) (l : list A) : insert_ranked before x l ≡ₚ x :: l.
Proof.
  induction l as [|y ys IH]; [reflexivity|]. simpl.
  destruct (before x y); [reflexivity|].
  rewrite IH. apply perm_swap.
Qed.

Lemma foldl_insert_perm (items best : list A) :
  foldl (fun b x => insert_ranked before x b) best items ≡ₚ items ++ best.
Proof.
  revert best. induction items as [|x items IH]; intros best; [reflexivity|].
  simpl. rewrite IH, insert_ranked_perm. by rewrite Permutation_middle.
Qed.

Lemma rank_all_perm (items : list A) : rank_all before items ≡ₚ items.
Proof. unfold rank_all. by rewrite foldl_insert_perm, app_nil_r. Qed.

Lemma top_n_length (n : nat) (items : list A) :
  length (top_n before n items) = (n `min` length items)%nat.
Proof. by rewrite top_n_rank_all, length_take, rank_all_perm. Qed.

Lemma top_n_elem_of (n : nat) (items : list A) (x : A) :
  x ∈ top_n before n items → x ∈ items.
Proof.
  rewrite top_n_rank_all. intros H.
  rewrite <- (rank_all_perm items). by apply (subseteq_take n).
Qed.

(** [before] is a strict total order. *)
Hypothesis before_irrefl : ∀ x, before x x = false.
Hypothesis before_trans :
  ∀ x y z, before x y = true → before y z = true → before x z = true.
Hypothesis before_total : ∀ x y, before x y = false → before y x = false → x = y.











End TopKFacts.

(** The order on scanned photos is a strict total order, so both rankings
    meet the assumptions above. *)







(** Newest first: the order [heapq.nlargest] ranks by. *)
Definition newer (a b : dated) : bool := dated_lt b a.




(** ** Random sampling *)

Lemma sample_length {A} (tape : list nat) (population : list A) (k : nat) :
  (k ≤ length population)%nat → length (sample tape population k).1 = k.
Proof.
  revert tape population. induction k as [|k IH]; intros tape population Hk; [reflexivity|].
  simpl.
  assert (hd 0%nat tape mod length population < length population)%nat as Hi
    by (apply Nat.mod_upper_bound; lia).
  destruct (lookup_lt_is_Some_2 _ _ Hi) as [x Hx]. rewrite Hx.
  specialize (IH (tl tape) (delete (hd 0%nat tape mod length population)%nat population)).
  destruct (sample _ _ k) as [rest tape'] eqn:E. simpl in *. f_equal. apply IH.
  rewrite length_delete by eauto. lia.
Qed.

Lemma sample_elem_of {A} (tape : list nat) (population : list A) (k : nat) (x : A) :
  x ∈ (sample tape population k).1 → x ∈ population.
Proof.
  revert tape population. induction k as [|k IH]; intros tape population; simpl.
  - intros H. by apply elem_of_nil in H.
  - destruct (population !! _) as [y|] eqn:Hy; simpl.
    + specialize (IH (tl tape) (delete (hd 0%nat tape mod length population)%nat population)).
      destruct (sample _ _ k) as [rest tape'] eqn:E. simpl in *.
      intros H. apply elem_of_cons in H. destruct H as [->|H].
      * apply list_elem_of_lookup. eauto.
      * eapply list_elem_of_delete_inv. by apply IH.
    + intros H. by apply elem_of_nil in H.
Qed.

(** ** Photo Selector *)

(** No shutdown request reaches the operation: the flag is clear and
    stays clear. *)
Definition quiet (w : world) : Prop :=
  operation_cancelled (ctl w) = false ∧ shutdown_in (ctl w) = None.

(** The photos of the library that are not in the viewed set, in the order
    the directory lists them. *)
Definition unviewed_of (w : world) : list string :=
  filter (fun p => is_viewed p (hist w) = false) (iter_photos (library (fs w))).

Lemma poll_quiet w : quiet w → poll w = (false, w).
Proof.
  destruct w as [f h c [lock cancelled shutdown] r s st].
  unfold quiet, poll, is_set. simpl. intros [-> ->]. reflexivity.
Qed.

Lemma unviewed_photos_quiet photos w :
  quiet w →
  unviewed_photos photos w
  = (filter (fun p => is_viewed p (hist w) = false) photos, w).
Proof.
  intros Hq. induction photos as [|p photos IH]; [reflexivity|].
  simpl. rewrite (poll_quiet w Hq), IH. rewrite filter_cons.
  destruct (is_viewed p (hist w)); by case_decide.
Qed.

#[local] Arguments Nat.modulo : simpl never.

Section SelectorFacts.

Variable calc : string → Z.

(** The date the selector works with: the cached one, else the
    resolver's. *)
Definition resolved (c : cache_store) (p : string) : Z :=
  default (calc p) (cache_get p c).

(** [w'] is [w] with more dates cached, and possibly flushed. *)
Definition cache_step (w w' : world) : Prop :=
  fs w' = fs w ∧ hist w' = hist w ∧ ctl w' = ctl w ∧ rng w' = rng w
  ∧ form w' = form w ∧ status w' = status w
  ∧ ∀ q, resolved (cache w') q = resolved (cache w) q.

Lemma cache_step_refl w : cache_step w w.
Proof. by repeat split. Qed.

Lemma cache_step_trans w1 w2 w3 : cache_step w1 w2 → cache_step w2 w3 → cache_step w1 w3.
Proof.
  intros (?&?&?&?&?&?&H12) (?&?&?&?&?&?&H23).
  repeat split; first [congruence | intros q; by rewrite H23, H12].
Qed.

Lemma cache_step_quiet w w' : cache_step w w' → quiet w → quiet w'.
Proof. intros (_&_&Hc&_) Hq. unfold quiet. by rewrite Hc. Qed.

Lemma flush_cache_step w : cache_step w (flush_cache w).
Proof.
  repeat split. intros q. unfold flush_cache, resolved, cache_get, save_date_cache. simpl.
  destruct (cache_dirty (cache w)); simpl; [|done].
  by destruct (cache_writable (cache w)).
Qed.

Lemma get_photo_date_fst p c : (get_photo_date calc p c).1 = resolved c p.
Proof. unfold get_photo_date, resolved. by destruct (cache_get p c). Qed.

Lemma get_photo_date_resolved p c q :
  resolved (get_photo_date calc p c).2 q = resolved c q.
Proof.
  unfold get_photo_date, resolved, cache_get, cache_put.
  destruct (date_cache c !! p) as [d|] eqn:Hp; simpl; [done|].
  destruct (decide (p = q)) as [->|Hne].
  - by rewrite lookup_insert_eq, Hp.
  - by rewrite lookup_insert_ne.
Qed.

Lemma lookup_date_step p w :
  (lookup_date calc p w).1 = resolved (cache w) p
  ∧ cache_step w (lookup_date calc p w).2.
Proof.
  unfold lookup_date.
  pose proof (get_photo_date_fst p (cache w)) as H1.
  pose proof (get_photo_date_resolved p (cache w)) as H2.
  destruct (get_photo_date calc p (cache w)) as [d c]. simpl in *.
  split; [done|]. by repeat split.
Qed.

Definition key_of (w : world) (p : string) : dated := (resolved (cache w) p, p).

Lemma key_of_step w w' (l : list string) :
  cache_step w w' → key_of w' <$> l = key_of w <$> l.
Proof.
  intros (_&_&_&_&_&_&H). apply list_fmap_ext. intros i p _.
  unfold key_of. by rewrite H.
Qed.

(** Without cancellation the first scan yields every unviewed photo with
    its date. *)
Lemma photo_with_date_gen_quiet photos processed w :
  quiet w →
  ∃ n w', photo_with_date_gen calc photos processed w
          = (key_of w <$> filter (fun p => is_viewed p (hist w) = false) photos, n, w')
          ∧ cache_step w w'.
Proof.
  revert processed w. induction photos as [|p photos IH]; intros processed w Hq.
  - exists processed, w. split; [reflexivity|apply cache_step_refl].
  - simpl. rewrite (poll_quiet w Hq). rewrite filter_cons.
    destruct (is_viewed p (hist w)) eqn:Hv.
    + case_decide; [discriminate|]. apply IH, Hq.
    + case_decide; [|done]. rewrite (poll_quiet w Hq).
      set (w3 := if (S processed mod 5000 =? 0)%nat
                 then with_cache (save_date_cache (cache w)) w else w).
      assert (cache_step w w3) as H3.
      { unfold w3. destruct (S processed mod 5000 =? 0)%nat;
          [apply (flush_cache_step w)|apply cache_step_refl]. }
      destruct (lookup_date_step p w3) as [Hd H4].
      destruct (lookup_date calc p w3) as [date w4]. simpl in Hd, H4.
      pose proof (cache_step_trans _ _ _ H3 H4) as H34.
      destruct (IH (S processed) w4 (cache_step_quiet _ _ H34 Hq)) as (n & w5 & E & H5).
      rewrite E. exists n, w5. split; [|by apply (cache_step_trans _ w4)].
      destruct H34 as (_ & Hh & _). rewrite Hh.
      rewrite (key_of_step w w4) by (by apply (cache_step_trans _ w3)).
      rewrite fmap_cons. do 3 f_equal. unfold key_of. f_equal.
      rewrite Hd. by destruct H3 as (_&_&_&_&_&_&->).
Qed.

(** Without cancellation the second scan yields every photo with its
    date. *)
Lemma all_photos_with_date_quiet photos processed w :
  quiet w →
  ∃ n w', all_photos_with_date calc photos processed w = (key_of w <$> photos, n, w')
          ∧ cache_step w w'.
Proof.
  revert processed w. induction photos as [|p photos IH]; intros processed w Hq.
  - exists processed, w. split; [reflexivity|apply cache_step_refl].
  - simpl. rewrite (poll_quiet w Hq).
    destruct (lookup_date_step p w) as [Hd H2].
    destruct (lookup_date calc p w) as [date w2]. simpl in Hd, H2.
    destruct (IH (S processed) w2 (cache_step_quiet _ _ H2 Hq)) as (n & w3 & E & H3).
    rewrite E. exists n, w3. split; [|by apply (cache_step_trans _ w2)].
    rewrite (key_of_step w w2) by done.
    unfold key_of at 2. by rewrite Hd.
Qed.

End SelectorFacts.

Section SelectionFacts.

Variable calc : string → Z.

(** The order a date mode ranks by: newest first for ["Newest"], oldest
    first otherwise. *)
Definition ranks_before (mode : string) : dated → dated → bool :=
  if String.eqb mode "Newest" then newer else dated_lt.




Lemma draw_spec (count : nat) (pool : list string) (w : world) :
  length (draw count pool w).1 = (count `min` length pool)%nat
  ∧ (∀ p, p ∈ (draw count pool w).1 → p ∈ pool)
  ∧ hist (draw count pool w).2 = hist w
  ∧ fs (draw count pool w).2 = fs w
  ∧ ctl (draw count pool w).2 = ctl w.
Proof.
  unfold draw.
  pose proof (sample_length (rng w) pool (count `min` length pool)%nat ltac:(lia)) as Hlen.
  pose proof (sample_elem_of (rng w) pool (count `min` length pool)%nat) as Hin.
  destruct (sample (rng w) pool (count `min` length pool)%nat) as [selected tape].
  simpl in *. by repeat split.
Qed.

(** The selection in Random mode when no cancellation arrives. *)
Lemma select_photos_random_quiet (count : Z) (w : world) :
  quiet w →
  select_photos calc count "Random" w
  = if (length (unviewed_of w) <? clamp_count count)%nat
    then draw (clamp_count count) (iter_photos (library (fs w))) (reset_viewed w)
    else draw (clamp_count count) (unviewed_of w) w.
Proof.
  intros Hq. unfold select_photos. simpl.
  rewrite (unviewed_photos_quiet _ w Hq). reflexivity.
Qed.

(** The selection in a date mode when no cancellation arrives. *)
Lemma select_photos_ranked_quiet (count : Z) (mode : string) (w : world) :
  quiet w → String.eqb mode "Random" = false →
  ∃ w',
    select_photos calc count mode w
    = (snd <$> top_n (ranks_before mode) (clamp_count count)
                 (key_of calc w <$>
                    (if (length (unviewed_of w) <? clamp_count count)%nat
                     then iter_photos (library (fs w)) else unviewed_of w)),
       w')
    ∧ hist w' = (if (length (unviewed_of w) <? clamp_count count)%nat
                 then save_viewed_photos (set_viewed ∅ (hist w)) else hist w)
    ∧ fs w' = fs w ∧ ctl w' = ctl w.
Proof.
  intros Hq Hmode. unfold select_photos. rewrite Hmode.
  destruct (photo_with_date_gen_quiet calc (iter_photos (library (fs w))) 0 w Hq)
    as (n & w1 & E & H1).
  rewrite E. fold (unviewed_of w).
  assert ((if String.eqb mode "Newest" then nlargest else nsmallest)
          = top_n (ranks_before mode)) as ->.
  { unfold ranks_before. by destruct (String.eqb mode "Newest"). }
  rewrite length_fmap, top_n_length, length_fmap.
  pose proof (cache_step_trans calc _ _ _ H1 (flush_cache_step calc w1)) as H2.
  assert ((clamp_count count `min` length (unviewed_of w) <? clamp_count count)%nat
          = (length (unviewed_of w) <? clamp_count count)%nat) as ->.
  { destruct (length (unviewed_of w) <? clamp_count count)%nat eqn:E';
      [apply Nat.ltb_lt; apply Nat.ltb_lt in E'|apply Nat.ltb_ge; apply Nat.ltb_ge in E'];
      lia. }
  destruct (length (unviewed_of w) <? clamp_count count)%nat.
  - set (w3 := reset_viewed (flush_cache w1)).
    assert (quiet w3) as Hq3.
    { unfold quiet, w3. simpl. destruct H1 as (_&_&->&_). exact Hq. }
    assert (fs w3 = fs w) as Hfs by (unfold w3; simpl; by destruct H1 as (->&_)).
    destruct (all_photos_with_date_quiet calc (iter_photos (library (fs w3))) 0 w3 Hq3)
      as (n' & w4 & E4 & H4).
    rewrite E4. exists (flush_cache w4).
    assert (key_of calc w3 <$> iter_photos (library (fs w3))
            = key_of calc w <$> iter_photos (library (fs w))) as ->.
    { rewrite Hfs. apply list_fmap_ext. intros i p _. unfold key_of, w3. simpl.
      destruct H2 as (_&_&_&_&_&_&H2). simpl in H2. by rewrite H2. }
    split; [reflexivity|].
    destruct H4 as (Hf4 & Hh4 & Hc4 & _). simpl.
    rewrite Hh4, Hf4, Hc4. unfold w3. simpl.
    destruct H1 as (Hf1 & Hh1 & Hc1 & _). by rewrite Hh1, Hf1, Hc1.
  - exists (flush_cache w1). split; [reflexivity|].
    destruct H2 as (Hf & Hh & Hc & _). by rewrite Hh, Hf, Hc.
Qed.

(** What a selection does to the history and what it returns, when no
    cancellation arrives: with [c] the clamped count, too few unviewed
    photos reset the history and the selection is made from the whole
    directory; otherwise the history is untouched and the selection is
    made from the unviewed photos. *)
Lemma select_photos_quiet (count : Z) (mode : string) (w : world) :
  quiet w →
  let pool := if (length (unviewed_of w) <? clamp_count count)%nat
              then iter_photos (library (fs w)) else unviewed_of w in
  hist (select_photos calc count mode w).2
  = (if (length (unviewed_of w) <? clamp_count count)%nat
     then save_viewed_photos (set_viewed ∅ (hist w)) else hist w)
  ∧ length (select_photos calc count mode w).1 = (clamp_count count `min` length pool)%nat
  ∧ (∀ p, p ∈ (select_photos calc count mode w).1 → p ∈ pool).
Proof.
  intros Hq pool. destruct (String.eqb mode "Random") eqn:Hmode.
  - apply String.eqb_eq in Hmode as ->.
    rewrite (select_photos_random_quiet count w Hq). unfold pool.
    destruct (length (unviewed_of w) <? clamp_count count)%nat.
    + destruct (draw_spec (clamp_count count) (iter_photos (library (fs w)))
                  (reset_viewed w)) as (Hlen & Hin & Hh & _).
      by rewrite Hh.
    + destruct (draw_spec (clamp_count count) (unviewed_of w) w) as (Hlen & Hin & Hh & _).
      by rewrite Hh.
  - destruct (select_photos_ranked_quiet count mode w Hq Hmode) as (w' & E & Hh & _).
    rewrite E. simpl. split; [exact Hh|]. fold pool. split.
    + by rewrite length_fmap, top_n_length, length_fmap.
    + intros p Hp. apply list_elem_of_fmap in Hp as ([d p'] & -> & Hp).
      apply top_n_elem_of in Hp. apply list_elem_of_fmap in Hp as (q & Hq' & Hq'').
      unfold key_of in Hq'. injection Hq' as _ ->. exact Hq''.
Qed.

End SelectionFacts.

Lemma clamp_count_range (count : Z) : 1 ≤ Z.of_nat (clamp_count count) ≤ 10000.
Proof. unfold clamp_count. lia. Qed.

Lemma clamp_count_id (count : Z) :
  1 ≤ count ≤ 10000 → Z.of_nat (clamp_count count) = count.
Proof. unfold clamp_count. lia. Qed.

(** C1 as it is worded, at one input: the history is reset, and the
    selection redone over the whole directory, exactly when fewer than
    [count] unviewed photos exist; otherwise the history is left alone and
    only unviewed photos are returned. *)
Definition exhaustion_policy_as_stated (calc : string → Z) (count : Z) (mode : string)
    (w : world) : Prop :=
  let unviewed := Z.of_nat (length (unviewed_of w)) in
  let available := Z.of_nat (length (iter_photos (library (fs w)))) in
  let selected := (select_photos calc count mode w).1 in
  let h' := hist (select_photos calc count mode w).2 in
  (unviewed < count →
     h' = save_viewed_photos (set_viewed ∅ (hist w))
     ∧ Z.of_nat (length selected) = Z.min count available
     ∧ ∀ p, p ∈ selected → p ∈ iter_photos (library (fs w)))
  ∧ (count ≤ unviewed →
     h' = hist w
     ∧ ∀ p, p ∈ selected → p ∈ unviewed_of w).

(** A library of one photo, already viewed, with nothing going on. *)
Definition one_viewed_photo : world :=
  mkWorld (mkFs (Some [mkEntry "a.jpg" true]) (Some []) ∅ true)
          (mkHistory {[ KStr "a.jpg" ]} (Payload (JList [JStr "a.jpg"])) true)
          (mkCache ∅ false Missing true)
          (mkControl true false None) [] (mkSettings (Ok 0) "Random" (Ok false) true) None.

(** C1, as worded, fails for a requested count of 0: the count is raised
    to 1, and with no unviewed photo the history is reset although "at
    least 0" unviewed photos exist. *)
Lemma select_photos_count_zero :
  ¬ exhaustion_policy_as_stated (fun _ => 0) 0 "Random" one_viewed_photo.
Proof.
  intros [_ Hkeep].
  destruct Hkeep as [Hh _]; [vm_compute; discriminate|].
  assert (viewed_photos (hist (select_photos (fun _ => 0) 0 "Random" one_viewed_photo).2)
          = ∅) as Hempty by reflexivity.
  rewrite Hh in Hempty.
  assert (KStr "a.jpg" ∈ viewed_photos (hist one_viewed_photo)) as Hin
    by (unfold one_viewed_photo; simpl; apply elem_of_singleton; reflexivity).
  rewrite Hempty in Hin. by apply not_elem_of_empty in Hin.
Qed.

(** C1, as the code has it.  With [c] the requested count clamped to
    1..10000, and no cancellation arriving during the selection: when
    fewer than [c] unviewed photos exist, the viewed set is cleared and
    the cleared set written to its record, and the selection is redone
    over the whole directory, returning [c] photos, or all of them when
    the directory holds fewer; when at least [c] unviewed photos exist,
    the history is unchanged and [c] photos are returned, all unviewed. *)
Theorem select_photos_exhaustion (calc : string → Z) (count : Z) (mode : string)
    (w : world) :
  quiet w →
  let c := clamp_count count in
  let selected := (select_photos calc count mode w).1 in
  let h' := hist (select_photos calc count mode w).2 in
  1 ≤ Z.of_nat c ≤ 10000
  ∧ (1 ≤ count ≤ 10000 → Z.of_nat c = count)
  ∧ ((length (unviewed_of w) < c)%nat →
       h' = save_viewed_photos (set_viewed ∅ (hist w))
       ∧ viewed_photos h' = ∅
       ∧ (log_writable (hist w) = true → log_file h' = Payload (JList []))
       ∧ length selected = (c `min` length (iter_photos (library (fs w))))%nat
       ∧ ∀ p, p ∈ selected → p ∈ iter_photos (library (fs w)))
  ∧ ((c ≤ length (unviewed_of w))%nat →
       h' = hist w
       ∧ length selected = c
       ∧ ∀ p, p ∈ selected →
              p ∈ iter_photos (library (fs w)) ∧ is_viewed p (hist w) = false).
Proof.
  intros Hq c selected h'.
  destruct (select_photos_quiet calc count mode w Hq) as (Hh & Hlen & Hin).
  fold c in Hh, Hlen, Hin. fold h' in Hh. fold selected in Hlen, Hin.
  split; [apply clamp_count_range|]. split; [apply clamp_count_id|]. split.
  - intros Hfew. apply Nat.ltb_lt in Hfew. rewrite Hfew in Hh, Hlen, Hin.
    rewrite Hh. unfold save_viewed_photos, set_viewed. simpl.
    destruct (log_writable (hist w)) eqn:Hlog; simpl;
      rewrite ?dump_viewed_empty; by repeat split.
  - intros Henough. apply Nat.ltb_ge in Henough. rewrite Henough in Hh, Hlen, Hin.
    split; [exact Hh|]. split.
    + rewrite Hlen. apply Nat.ltb_ge in Henough. lia.
    + intros p Hp. apply Hin in Hp. unfold unviewed_of in Hp.
      apply list_elem_of_filter in Hp as [Hp1 Hp2]. by split.
Qed.

Lemma select_photos_exhaustion_witness :
  viewed_photos (hist (select_photos (fun _ => 0) 0 "Newest" one_viewed_photo).2) = ∅
  ∧ length (select_photos (fun _ => 0) 0 "Newest" one_viewed_photo).1 = 1%nat.
Proof.
  destruct (select_photos_exhaustion (fun _ => 0) 0 "Newest" one_viewed_photo)
    as (_ & _ & Hreset & _).
  - split; reflexivity.
  - destruct Hreset as (_ & Hempty & _ & Hlen & _).
    + vm_compute. lia.
    + exact (conj Hempty Hlen).
Defined.

(** ** Top-K by date *)






(** Three photos, the first one viewed; the resolver dates a file by the
    length of its name, so the two five-letter names tie. *)
Definition three_photos : world :=
  mkWorld (mkFs (Some [mkEntry "a.jpg" true; mkEntry "bb.jpg" true; mkEntry "c.jpg" true;
                       mkEntry "d.jpg" true; mkEntry "notes.txt" true])
                (Some []) ∅ true)
          (mkHistory {[ KStr "a.jpg" ]} (Payload (JList [JStr "a.jpg"])) true)
          (mkCache ∅ false Missing true)
          (mkControl true false None) [] (mkSettings (Ok 2) "Newest" (Ok false) true) None.

Definition name_length (s : string) : Z := Z.of_nat (String.length s).


(** ** Cancellation during the selection *)

(** A scan cut short by cancellation is taken for exhaustion: once the
    flag is up, Random mode resets the history and draws from the whole
    directory, which it lists without looking at the flag. *)
Lemma select_photos_random_cancelled (calc : string → Z) (count : Z) (w : world) :
  operation_cancelled (ctl w) = true → shutdown_in (ctl w) = None →
  iter_photos (library (fs w)) ≠ [] →
  select_photos calc count "Random" w
  = draw (clamp_count count) (iter_photos (library (fs w))) (reset_viewed w).
Proof.
  intros Hc Hs Hne. unfold select_photos. simpl.
  destruct (iter_photos (library (fs w))) as [|p photos] eqn:E; [done|].
  assert (poll w = (true, w)) as Hpoll.
  { destruct w as [f h c [lock cancelled shutdown] r s st]. simpl in *.
    unfold poll, is_set. simpl. by rewrite Hs, Hc. }
  simpl. rewrite Hpoll. simpl.
  assert ((0 <? clamp_count count)%nat = true) as ->.
  { apply Nat.ltb_lt. pose proof (clamp_count_range count). lia. }
  simpl. by rewrite E.
Qed.

(** The world of [three_photos], with the shutdown request arriving after
    the first poll of the scan. *)
Definition shutdown_mid_scan : world :=
  with_ctl (mkControl true false (Some 1%nat)) three_photos.

(** C5 fails in Random mode.  The flag goes up during the enumeration,
    with two unviewed photos in the library and two requested: the
    selection does not stop; it clears the viewed set, writes the empty
    list to its record, lists the whole directory again and returns two
    photos. *)
Theorem select_photos_random_ignores_cancellation :
  (unviewed_photos (iter_photos (library (fs shutdown_mid_scan))) shutdown_mid_scan).1 = []
  ∧ operation_cancelled
      (ctl (unviewed_photos (iter_photos (library (fs shutdown_mid_scan)))
              shutdown_mid_scan).2) = true
  ∧ unviewed_of shutdown_mid_scan = ["bb.jpg"; "c.jpg"; "d.jpg"]
  ∧ viewed_photos (hist shutdown_mid_scan) = {[ KStr "a.jpg" ]}
  ∧ (select_photos name_length 2 "Random" shutdown_mid_scan).1 = ["a.jpg"; "bb.jpg"]
  ∧ viewed_photos (hist (select_photos name_length 2 "Random" shutdown_mid_scan).2) = ∅
  ∧ log_file (hist (select_photos name_length 2 "Random" shutdown_mid_scan).2)
    = Payload (JList [])
  ∧ operation_cancelled (ctl (select_photos name_length 2 "Random" shutdown_mid_scan).2)
    = true.
Proof. repeat split; reflexivity. Qed.

(** In a date mode the second scan does look at the flag: the same
    cancellation returns nothing, but the history has been reset all the
    same. *)
Lemma select_photos_newest_cancelled :
  (select_photos name_length 2 "Newest" shutdown_mid_scan).1 = []
  ∧ viewed_photos (hist (select_photos name_length 2 "Newest" shutdown_mid_scan).2) = ∅.
Proof. split; reflexivity. Qed.

(** ** Emptying the gallery *)

Lemma filter_ext_in {A} (P Q : A → Prop) `{!∀ x, Decision (P x), !∀ x, Decision (Q x)}
    (l : list A) :
  (∀ x, x ∈ l → (P x ↔ Q x)) → filter P l = filter Q l.
Proof.
  induction l as [|a l IH]; intros Hext; [reflexivity|].
  rewrite !filter_cons.
  rewrite IH by (intros x Hx; apply Hext; by right).
  destruct (decide (P a)) as [HP|HP], (decide (Q a)) as [HQ|HQ]; try reflexivity.
  - exfalso. apply HQ. by apply (Hext a); [left|].
  - exfalso. apply HP. by apply (Hext a); [left|].
Qed.

Lemma filter_all {A} (P : A → Prop) `{!∀ x, Decision (P x)} (l : list A) :
  (∀ x, x ∈ l → P x) → filter P l = l.
Proof.
  induction l as [|a l IH]; intros Hall; [reflexivity|].
  rewrite filter_cons_True by (apply Hall; left).
  f_equal. apply IH. intros x Hx. apply Hall. by right.
Qed.

Lemma remove_entry_absent n entries : n ∉ name <$> entries → remove_entry n entries = entries.
Proof.
  intros Hn. apply filter_all. intros e He Heq. apply Hn.
  rewrite <- Heq. by apply list_elem_of_fmap_2.
Qed.

(** The two directories once every photo of [photos] has left the
    gallery: those whose name the library already had were deleted, the
    others were appended to the library. *)
Definition emptied (f : filesystem) (lib gal : list entry) (photos : list string)
  : filesystem :=
  mkFs (Some (lib ++ ((fun p => mkEntry p true)
                        <$> filter (fun p => p ∉ name <$> lib) photos))%list)
       (Some (filter (fun e => name e ∉ photos) gal))
       (unmovable f) (mkdir_ok f).

Lemma with_fs_same w : with_fs (fs w) w = w.
Proof. by destruct w. Qed.

Lemma emptied_cons_dupe f lib gal p photos l g :
  p ∈ name <$> lib →
  emptied (mkFs l g (unmovable f) (mkdir_ok f)) lib (remove_entry p gal) photos
  = emptied f lib gal (p :: photos).
Proof.
  intros Hin. unfold emptied. simpl. f_equal.
  - rewrite filter_cons_False by (intros H; by apply H). reflexivity.
  - f_equal. unfold remove_entry. rewrite list_filter_filter.
    apply list_filter_iff. intros e. rewrite not_elem_of_cons. tauto.
Qed.

Lemma names_snoc lib p q :
  q ≠ p → (q ∈ name <$> (lib ++ [mkEntry p true])%list) ↔ (q ∈ name <$> lib).
Proof.
  intros Hne. rewrite fmap_app, elem_of_app. simpl.
  rewrite list_elem_of_singleton. tauto.
Qed.

Lemma emptied_cons_moved f lib gal p photos l g :
  p ∉ name <$> lib → p ∉ photos →
  emptied (mkFs l g (unmovable f) (mkdir_ok f)) (lib ++ [mkEntry p true])%list
          (remove_entry p gal) photos
  = emptied f lib gal (p :: photos).
Proof.
  intros Hin Hp. unfold emptied. simpl. f_equal.
  - rewrite filter_cons_True by exact Hin.
    rewrite (filter_ext_in (fun q => q ∉ name <$> (lib ++ [mkEntry p true])%list)
               (fun q => q ∉ name <$> lib) photos).
    + by rewrite <- app_assoc.
    + intros q Hq. rewrite names_snoc; [tauto|]. intros ->. done.
  - f_equal. unfold remove_entry. rewrite list_filter_filter.
    apply list_filter_iff. intros e. rewrite not_elem_of_cons. tauto.
Qed.

Lemma gallery_pass_quiet photos :
  ∀ moved dupes w lib gal,
    quiet w → library (fs w) = Some lib → gallery (fs w) = Some gal →
    (∀ p, p ∈ photos → p ∉ unmovable (fs w)) → NoDup photos →
    gallery_pass photos moved dupes w
    = (PassDone (moved + length (filter (fun p => p ∉ name <$> lib) photos))%nat
                (dupes ++ filter (fun p => p ∈ name <$> lib) photos)%list,
       with_fs (emptied (fs w) lib gal photos) w).
Proof.
  induction photos as [|p photos IH]; intros moved dupes w lib gal Hq Hlib Hgal Hmov Hnd.
  - simpl. rewrite Nat.add_0_r, !app_nil_r. f_equal.
    unfold emptied. simpl. rewrite filter_all by (intros e _; apply not_elem_of_nil).
    rewrite app_nil_r, <- Hlib, <- Hgal. destruct w as [[l g u m] h c k r s st]. reflexivity.
  - apply NoDup_cons in Hnd as [Hp Hnd].
    assert (p ∉ unmovable (fs w)) as Hpm by (apply Hmov; left).
    assert (∀ q, q ∈ photos → q ∉ unmovable (fs w)) as Hmov'
      by (intros q Hq'; apply Hmov; by right).
    simpl. rewrite (poll_quiet w Hq), Hlib. simpl.
    case_bool_decide as Hin.
    + unfold unlink_gallery. rewrite bool_decide_false by exact Hpm.
      rewrite Hgal, Hlib. simpl.
      rewrite (IH moved (dupes ++ [p])%list
                 (with_fs (mkFs (Some lib) (Some (remove_entry p gal))
                                (unmovable (fs w)) (mkdir_ok (fs w))) w)
                 lib (remove_entry p gal) Hq eq_refl eq_refl Hmov' Hnd).
      simpl. rewrite emptied_cons_dupe by exact Hin.
      rewrite filter_cons_False by (intros H; by apply H).
      rewrite filter_cons_True by exact Hin.
      by rewrite <- app_assoc.
    + unfold rename_to_library. rewrite bool_decide_false by exact Hpm.
      rewrite Hgal, Hlib. simpl.
      unfold add_entry. rewrite (remove_entry_absent p lib Hin).
      rewrite (IH (S moved) dupes
                 (with_fs (mkFs (Some (lib ++ [mkEntry p true])%list)
                                (Some (remove_entry p gal))
                                (unmovable (fs w)) (mkdir_ok (fs w))) w)
                 (lib ++ [mkEntry p true])%list (remove_entry p gal)
                 Hq eq_refl eq_refl Hmov' Hnd).
      simpl. rewrite emptied_cons_moved by done.
      rewrite filter_cons_True by exact Hin.
      rewrite filter_cons_False by exact Hin.
      rewrite (filter_ext_in (fun q => q ∉ name <$> (lib ++ [mkEntry p true])%list)
                 (fun q => q ∉ name <$> lib) photos).
      2: { intros q Hq'. rewrite names_snoc; [tauto|]. intros ->. done. }
      rewrite (filter_ext_in (fun q => q ∈ name <$> (lib ++ [mkEntry p true])%list)
                 (fun q => q ∈ name <$> lib) photos).
      2: { intros q Hq'. apply names_snoc. intros ->. done. }
      simpl. do 2 f_equal. lia.
Qed.



Lemma forget_dupes_fs dupes w : fs (forget_dupes dupes w) = fs w.
Proof. by destruct dupes. Qed.

Lemma iter_photos_NoDup entries :
  NoDup (name <$> entries) → NoDup (iter_photos (Some entries)).
Proof.
  intros Hnd. unfold iter_photos. apply (sublist_NoDup _ _ Hnd).
  apply fmap_sublist, sublist_filter.
Qed.

Lemma names_of_files (l : list string) : name <$> ((fun p => mkEntry p true) <$> l) = l.
Proof. induction l as [|p l IH]; [reflexivity|]. rewrite !fmap_cons, IH. reflexivity. Qed.

(** What emptying the gallery gives when nothing interferes. *)
Lemma empty_gallery_quiet w lib gal :
  quiet w → library (fs w) = Some lib → gallery (fs w) = Some gal →
  (∀ p, p ∈ iter_photos (Some gal) → p ∉ unmovable (fs w)) →
  NoDup (name <$> gal) →
  empty_gallery w
  = (Some (length (filter (fun p => p ∉ name <$> lib) (iter_photos (Some gal)))),
     forget_dupes (filter (fun p => p ∈ name <$> lib) (iter_photos (Some gal)))
       (with_fs (emptied (fs w) lib gal (iter_photos (Some gal))) w)).
Proof.
  intros Hq Hlib Hgal Hmov Hnd. unfold empty_gallery. rewrite Hgal.
  rewrite (gallery_pass_quiet _ 0%nat [] w lib gal Hq Hlib Hgal Hmov
             (iter_photos_NoDup gal Hnd)).
  reflexivity.
Qed.


(** A library holding [a.jpg] and [b.jpg], a gallery holding a second
    [a.jpg], [c.jpg] and a text file; [a.jpg] and [c.jpg] are viewed. *)
Definition duplicate_in_gallery : world :=
  mkWorld (mkFs (Some [mkEntry "a.jpg" true; mkEntry "b.jpg" true; mkEntry "Gallery" false])
                (Some [mkEntry "a.jpg" true; mkEntry "c.jpg" true; mkEntry "list.txt" true])
                ∅ true)
          (mkHistory ({[ KStr "a.jpg" ]} ∪ {[ KStr "c.jpg" ]})
                     (Payload (JList [JStr "a.jpg"; JStr "c.jpg"])) true)
          (mkCache ∅ false Missing true)
          (mkControl true false None) [] (mkSettings (Ok 1) "Random" (Ok false) true) None.

Lemma three_names_NoDup (a b c : string) :
  a ≠ b → a ≠ c → b ≠ c → NoDup [a; b; c].
Proof.
  intros Hab Hac Hbc. repeat (apply NoDup_cons; split).
  - rewrite !elem_of_cons, elem_of_nil. tauto.
  - rewrite !elem_of_cons, elem_of_nil. tauto.
  - apply not_elem_of_nil.
  - apply NoDup_nil. exact I.
Qed.


(** ** The single-flight lock and the cancellation flag *)

(** Nothing a worker does before its [finally] clause touches the lock. *)
Definition keeps_lock (w w' : world) : Prop :=
  operation_lock (ctl w') = operation_lock (ctl w).

Lemma poll_keeps_lock w : keeps_lock w (poll w).2.
Proof.
  unfold keeps_lock, poll, is_set.
  destruct (shutdown_in (ctl w)) as [[|k]|]; reflexivity.
Qed.

Lemma gallery_pass_keeps_lock photos moved dupes w :
  keeps_lock w (gallery_pass photos moved dupes w).2.
Proof.
  revert moved dupes w. induction photos as [|p photos IH]; intros moved dupes w;
    [reflexivity|].
  simpl. pose proof (poll_keeps_lock w) as Hp.
  destruct (poll w) as [cancelled w1]. simpl in Hp.
  destruct cancelled; [exact Hp|].
  destruct (exists_in (library (fs w1)) p).
  - destruct (unlink_gallery p (fs w1)) as [f|e].
    + unfold keeps_lock in *. by rewrite IH.
    + unfold keeps_lock in *. by rewrite IH.
  - destruct (rename_to_library p (fs w1)) as [f|e].
    + unfold keeps_lock in *. by rewrite IH.
    + unfold keeps_lock in *. by rewrite IH.
Qed.

Lemma forget_dupes_keeps_lock dupes w : keeps_lock w (forget_dupes dupes w).
Proof. by destruct dupes. Qed.

Lemma empty_gallery_keeps_lock w : keeps_lock w (empty_gallery w).2.
Proof.
  unfold empty_gallery.
  pose proof (gallery_pass_keeps_lock (iter_photos (gallery (fs w))) 0%nat [] w) as H.
  destruct (gallery_pass _ _ _ w) as [[moved dupes|] w1]; simpl in *; [|exact H].
  unfold keeps_lock in *. by rewrite forget_dupes_keeps_lock.
Qed.

Lemma unviewed_photos_keeps_lock photos w : keeps_lock w (unviewed_photos photos w).2.
Proof.
  revert w. induction photos as [|p photos IH]; intros w; [reflexivity|].
  simpl. pose proof (poll_keeps_lock w) as Hp.
  destruct (poll w) as [cancelled w1]. simpl in Hp.
  destruct cancelled; [exact Hp|].
  specialize (IH w1). destruct (unviewed_photos photos w1) as [out w2]. simpl in *.
  unfold keeps_lock in *. by rewrite IH.
Qed.

Lemma lookup_date_ctl calc p w : ctl (lookup_date calc p w).2 = ctl w.
Proof. unfold lookup_date. by destruct (get_photo_date calc p (cache w)). Qed.

Lemma photo_with_date_gen_keeps_lock calc photos processed w :
  keeps_lock w (photo_with_date_gen calc photos processed w).2.
Proof.
  revert processed w. induction photos as [|p photos IH]; intros processed w;
    [reflexivity|].
  simpl. pose proof (poll_keeps_lock w) as Hp.
  destruct (poll w) as [cancelled w1]. simpl in Hp.
  destruct cancelled; [exact Hp|].
  destruct (is_viewed p (hist w1)).
  { unfold keeps_lock in *. by rewrite IH. }
  pose proof (poll_keeps_lock w1) as Hp'.
  destruct (poll w1) as [cancelled' w2]. simpl in Hp'.
  destruct cancelled'; [unfold keeps_lock in *; simpl; congruence|].
  set (w3 := if (S processed mod 5000 =? 0)%nat
             then with_cache (save_date_cache (cache w2)) w2 else w2).
  assert (ctl w3 = ctl w2) as H3 by (unfold w3; by destruct (_ =? _)%nat).
  pose proof (lookup_date_ctl calc p w3) as H4.
  destruct (lookup_date calc p w3) as [date w4]. simpl in H4.
  specialize (IH (S processed) w4).
  destruct (photo_with_date_gen calc photos (S processed) w4) as [[out n] w5].
  simpl in *. unfold keeps_lock in *. rewrite IH, H4, H3. congruence.
Qed.

Lemma all_photos_with_date_keeps_lock calc photos processed w :
  keeps_lock w (all_photos_with_date calc photos processed w).2.
Proof.
  revert processed w. induction photos as [|p photos IH]; intros processed w;
    [reflexivity|].
  simpl. pose proof (poll_keeps_lock w) as Hp.
  destruct (poll w) as [cancelled w1]. simpl in Hp.
  destruct cancelled; [exact Hp|].
  pose proof (lookup_date_ctl calc p w1) as H2.
  destruct (lookup_date calc p w1) as [date w2]. simpl in H2.
  specialize (IH (S processed) w2).
  destruct (all_photos_with_date calc photos (S processed) w2) as [[out n] w3].
  simpl in *. unfold keeps_lock in *. rewrite IH, H2. exact Hp.
Qed.

Lemma draw_keeps_lock count pool w : keeps_lock w (draw count pool w).2.
Proof.
  unfold draw. by destruct (sample (rng w) pool (count `min` length pool)%nat).
Qed.

Lemma select_photos_keeps_lock calc count mode w :
  keeps_lock w (select_photos calc count mode w).2.
Proof.
  unfold select_photos. destruct (String.eqb mode "Random").
  - pose proof (unviewed_photos_keeps_lock (iter_photos (library (fs w))) w) as H1.
    destruct (unviewed_photos _ w) as [unviewed w1]. simpl in H1.
    destruct (length unviewed <? clamp_count count)%nat.
    + unfold keeps_lock in *. rewrite draw_keeps_lock. exact H1.
    + unfold keeps_lock in *. rewrite draw_keeps_lock. exact H1.
  - pose proof (photo_with_date_gen_keeps_lock calc (iter_photos (library (fs w))) 0%nat w)
      as H1.
    destruct (photo_with_date_gen calc _ 0%nat w) as [[scanned n] w1]. simpl in H1.
    destruct (length _ <? clamp_count count)%nat; [|exact H1].
    set (w3 := reset_viewed (flush_cache w1)).
    pose proof (all_photos_with_date_keeps_lock calc (iter_photos (library (fs w3))) 0%nat w3)
      as H4.
    destruct (all_photos_with_date calc _ 0%nat w3) as [[scanned' n'] w4].
    unfold keeps_lock, w3 in *. simpl in *. congruence.
Qed.

Lemma fill_gallery_keeps_lock selected moved w :
  keeps_lock w (fill_gallery selected moved w).2.
Proof.
  revert moved w. induction selected as [|p selected IH]; intros moved w; [reflexivity|].
  simpl. pose proof (poll_keeps_lock w) as Hp.
  destruct (poll w) as [cancelled w1]. simpl in Hp.
  destruct cancelled; [exact Hp|].
  destruct (rename_to_gallery p (fs w1)) as [f|e].
  - unfold keeps_lock in *. by rewrite IH.
  - unfold keeps_lock in *. by rewrite IH.
Qed.

Lemma repopulate_keeps_lock calc w : keeps_lock w (repopulate calc w).2.
Proof.
  unfold repopulate. destruct (photo_count (form w)) as [count|e]; [|reflexivity].
  pose proof (select_photos_keeps_lock calc count (selection_mode (form w)) w) as H3.
  destruct (select_photos calc count (selection_mode (form w)) w) as [selected w3].
  pose proof (fill_gallery_keeps_lock selected 0%nat w3) as H4.
  destruct (fill_gallery selected 0%nat w3) as [[moved|] w4];
    unfold keeps_lock in *; simpl in *; congruence.
Qed.

Lemma switch_body_keeps_lock calc w : keeps_lock w (switch_body calc w).2.
Proof.
  unfold switch_body. destruct (library (fs w)); [|reflexivity].
  destruct (mkdir_gallery (fs w)) as [f|e]; [|reflexivity].
  pose proof (empty_gallery_keeps_lock (with_fs f w)) as H1.
  destruct (empty_gallery (with_fs f w)) as [[moved|] w1]; simpl in H1; [|exact H1].
  unfold keeps_lock in *. by rewrite repopulate_keeps_lock.
Qed.

Lemma clear_body_keeps_lock w : keeps_lock w (clear_body w).2.
Proof.
  unfold clear_body. destruct (gallery (fs w)); [|reflexivity].
  pose proof (empty_gallery_keeps_lock w) as H1.
  destruct (empty_gallery w) as [[moved|] w1]; exact H1.
Qed.

(** A worker that holds the lock gives it back, however its body ends. *)
Lemma finish_worker_releases (r : finish * world) :
  operation_lock (ctl r.2) = true →
  ∃ w', finish_worker r = Ok (r.1, w') ∧ operation_lock (ctl w') = false.
Proof.
  destruct r as [fin w]. simpl. intros Hlock.
  unfold finish_worker, release.
  destruct fin; simpl; rewrite Hlock; simpl; eauto.
Qed.

(** A free lock is taken and the flag cleared; the request then either
    starts the worker, which holds the lock, or is turned down with the
    lock given back. *)
Lemma launch_lifecycle (attempt : world → result (launch * world)) (w : world) :
  (∀ w0, attempt w0 = start_thread w0 ∨ attempt w0 = turn_down ValueError w0
         ∨ ∃ e, attempt w0 = Raise e) →
  operation_lock (ctl w) = false →
  ∃ l w1, Py.try_except (attempt (accept w)) (fun e => turn_down e (accept w)) = Ok (l, w1)
          ∧ l ≠ Busy
          ∧ operation_cancelled (ctl w1) = false
          ∧ (l = Started → operation_lock (ctl w1) = true)
          ∧ (l ≠ Started → operation_lock (ctl w1) = false).
Proof.
  intros Hattempt Hlock.
  destruct (Hattempt (accept w)) as [E|[E|[e E]]]; rewrite E.
  - unfold start_thread. destruct (thread_starts (form (accept w))); simpl.
    + exists Started, (accept w). by repeat split.
    + eexists _, _. split; [reflexivity|]. by repeat split.
  - eexists _, _. split; [reflexivity|]. by repeat split.
  - eexists _, _. split; [reflexivity|]. by repeat split.
Qed.

Lemma switch_launch_cases w :
  switch_launch w = start_thread w ∨ switch_launch w = turn_down ValueError w
  ∨ ∃ e, switch_launch w = Raise e.
Proof.
  unfold switch_launch, read_count, validate_paths.
  destruct (photo_count (form w)) as [count|e]; simpl.
  - destruct (count <=? 0); simpl; [by right; left|].
    destruct (resolved_equal (form w)) as [[]|e]; simpl; [by right; left|by left|].
    destruct e; eauto.
  - destruct e; eauto.
Qed.

Lemma clear_launch_cases w :
  clear_launch w = start_thread w ∨ clear_launch w = turn_down ValueError w
  ∨ ∃ e, clear_launch w = Raise e.
Proof.
  unfold clear_launch, validate_paths.
  destruct (resolved_equal (form w)) as [[]|e]; simpl; [by right; left|by left|].
  destruct e; eauto.
Qed.

(** C9.  From a free lock, a switch or clear request takes the lock and
    clears the cancellation flag; it ends either with the worker started
    and the lock held, or turned down (bad count, bad paths, or any other
    exception) with the lock released.  A worker that runs with the lock
    held releases it however it ends: completion, return on cancellation,
    or exception. *)
Theorem rotation_state_lifecycle (calc : string → Z) (w : world) :
  operation_lock (ctl w) = false →
  (∃ l w1, switch_photos_async w = Ok (l, w1) ∧ l ≠ Busy
           ∧ operation_cancelled (ctl w1) = false
           ∧ (l = Started → operation_lock (ctl w1) = true)
           ∧ (l ≠ Started → operation_lock (ctl w1) = false))
  ∧ (∃ l w1, clear_gallery_async w = Ok (l, w1) ∧ l ≠ Busy
             ∧ operation_cancelled (ctl w1) = false
             ∧ (l = Started → operation_lock (ctl w1) = true)
             ∧ (l ≠ Started → operation_lock (ctl w1) = false))
  ∧ (∀ w2, operation_lock (ctl w2) = true →
       (∃ fin w3, _switch_photos_worker calc w2 = Ok (fin, w3)
                  ∧ operation_lock (ctl w3) = false)
       ∧ (∃ fin w3, _clear_gallery_worker w2 = Ok (fin, w3)
                    ∧ operation_lock (ctl w3) = false)).
Proof.
  intros Hlock. split; [|split].
  - unfold switch_photos_async. rewrite Hlock.
    apply (launch_lifecycle switch_launch w switch_launch_cases Hlock).
  - unfold clear_gallery_async. rewrite Hlock.
    apply (launch_lifecycle clear_launch w clear_launch_cases Hlock).
  - intros w2 Hheld. split.
    + destruct (finish_worker_releases (switch_body calc w2)) as (w3 & E & H3).
      { rewrite switch_body_keeps_lock. exact Hheld. }
      eexists _, w3. split; [exact E|exact H3].
    + destruct (finish_worker_releases (clear_body w2)) as (w3 & E & H3).
      { rewrite clear_body_keeps_lock. exact Hheld. }
      eexists _, w3. split; [exact E|exact H3].
Qed.

(** The world of [three_photos] with the lock free. *)
Definition idle_three_photos : world :=
  with_ctl (mkControl false true None) three_photos.

Lemma rotation_state_lifecycle_witness :
  ∃ w1 fin w3,
    switch_photos_async idle_three_photos = Ok (Started, w1)
    ∧ operation_lock (ctl w1) = true
    ∧ operation_cancelled (ctl w1) = false
    ∧ _switch_photos_worker name_length w1 = Ok (fin, w3)
    ∧ operation_lock (ctl w3) = false.
Proof.
  destruct (rotation_state_lifecycle name_length idle_three_photos eq_refl)
    as ((l & w1 & E & _ & Hc & Hs & _) & _ & Hworker).
  assert (switch_photos_async idle_three_photos = Ok (Started, accept idle_three_photos))
    as E' by reflexivity.
  rewrite E' in E. injection E as <- <-.
  destruct (Hworker (accept idle_three_photos) (Hs eq_refl)) as ((fin & w3 & Ew & H3) & _).
  exists (accept idle_three_photos), fin, w3.
  exact (conj E' (conj (Hs eq_refl) (conj Hc (conj Ew H3)))).
Defined.

(** What a finished worker leaves to see: how its body ended, the
    message for the form, and the lock. *)
Definition worker_outcome (r : result (finish * world))
  : option (finish * option report * bool) :=
  match r with
  | Ok (fin, w) => Some (fin, status w, operation_lock (ctl w))
  | Raise _ => None
  end.

(** Each way out of a worker is taken by some run: completion,
    cancellation, a library that is missing, a gallery that is missing. *)
Lemma worker_exits_reached :
  worker_outcome (_switch_photos_worker name_length three_photos)
  = Some (Completed, Some (Switched 2), false)
  ∧ worker_outcome (_switch_photos_worker name_length
                      (with_ctl (mkControl true false (Some 0%nat)) duplicate_in_gallery))
    = Some (Cancelled, None, false)
  ∧ worker_outcome (_switch_photos_worker name_length
                      (with_fs (mkFs None None ∅ true) three_photos))
    = Some (Failed PlainException, Some (ErrorReport PlainException), false)
  ∧ worker_outcome (_clear_gallery_worker (with_fs (mkFs None None ∅ true) three_photos))
    = Some (Completed, Some GalleryMissing, false).
Proof. repeat split; reflexivity. Qed.

(** * Further properties of the engine *)

(** ** Round trip of the view history *)

Lemma hash_key_key_json k : hash_key (key_json k) = Ok k.
Proof. by destruct k. Qed.

Lemma py_set_key_json (ks : list pykey) : py_set (key_json <$> ks) = Ok (list_to_set ks).
Proof.
  induction ks as [|k ks IH]; [reflexivity|].
  rewrite fmap_cons. simpl. by rewrite hash_key_key_json, IH.
Qed.


(** ** Date lookups *)

(** X2.  After one lookup of a name the date is cached: a second lookup
    returns the same date without consulting the resolver (whatever it
    would answer now) and leaves the store as it is; the dates of other
    names are not affected. *)
Theorem get_photo_date_cached (calc calc' : string → Z) (p : string) (c : cache_store) :
  get_photo_date calc' p (get_photo_date calc p c).2 = get_photo_date calc p c
  ∧ cache_get p (get_photo_date calc p c).2 = Some (get_photo_date calc p c).1
  ∧ (∀ q, q ≠ p → cache_get q (get_photo_date calc p c).2 = cache_get q c).
Proof.
  unfold get_photo_date. destruct (cache_get p c) as [d|] eqn:Hp; simpl.
  - rewrite Hp. by repeat split.
  - unfold cache_get, cache_put in *. simpl. rewrite lookup_insert_eq.
    repeat split. intros q Hq. by rewrite lookup_insert_ne.
Qed.

(** ** What a selection leaves alone *)

(** Every cached date of [c] is still cached, unchanged, in [c']. *)
Definition cache_grows (c c' : cache_store) : Prop :=
  ∀ q d, date_cache c !! q = Some d → date_cache c' !! q = Some d.

(** [w'] differs from [w] at most by cached dates, the history, the
    polls of the flag and the draws of the generator. *)
Definition select_frame (w w' : world) : Prop :=
  fs w' = fs w ∧ form w' = form w ∧ status w' = status w
  ∧ cache_grows (cache w) (cache w')
  ∧ (shutdown_in (ctl w) = None → ctl w' = ctl w).

Lemma select_frame_refl w : select_frame w w.
Proof. repeat split; auto. by intros q d. Qed.

Lemma select_frame_trans w1 w2 w3 :
  select_frame w1 w2 → select_frame w2 w3 → select_frame w1 w3.
Proof.
  intros (Hf & Hs & Ht & Hc & Hk) (Hf' & Hs' & Ht' & Hc' & Hk').
  repeat split; try congruence.
  - intros q d Hq. by apply Hc', Hc.
  - intros Hnone. rewrite Hk'; [by apply Hk|]. by rewrite Hk.
Qed.

Lemma poll_frame w : select_frame w (poll w).2.
Proof.
  unfold poll, is_set. destruct (shutdown_in (ctl w)) as [[|k]|] eqn:E; simpl;
    repeat split; try done; try (by intros q d); intros Hnone; congruence.
Qed.

Lemma save_date_cache_grows c : cache_grows c (save_date_cache c).
Proof.
  intros q d. unfold save_date_cache.
  destruct (cache_dirty c); simpl; [|done]. by destruct (cache_writable c).
Qed.

Lemma flush_cache_frame w : select_frame w (flush_cache w).
Proof. repeat split; auto. apply save_date_cache_grows. Qed.

Lemma lookup_date_frame calc p w : select_frame w (lookup_date calc p w).2.
Proof.
  unfold lookup_date, get_photo_date.
  destruct (cache_get p (cache w)) as [d|] eqn:Hp; simpl.
  - repeat split; auto. by intros q d'.
  - repeat split; auto. intros q d' Hq. simpl.
    destruct (decide (p = q)) as [->|Hne].
    + unfold cache_get in Hp. congruence.
    + by rewrite lookup_insert_ne.
Qed.

Lemma reset_viewed_frame w : select_frame w (reset_viewed w).
Proof. repeat split; auto. by intros q d. Qed.

Lemma draw_frame count pool w : select_frame w (draw count pool w).2.
Proof.
  unfold draw. destruct (sample (rng w) pool (count `min` length pool)%nat).
  repeat split; auto. by intros q d.
Qed.

Lemma unviewed_photos_frame photos w :
  select_frame w (unviewed_photos photos w).2
  ∧ (unviewed_photos photos w).1 `sublist_of` photos.
Proof.
  revert w. induction photos as [|p photos IH]; intros w.
  - split; [apply select_frame_refl|reflexivity].
  - simpl. pose proof (poll_frame w) as Hp.
    destruct (poll w) as [cancelled w1]. simpl in Hp.
    destruct cancelled; [split; [exact Hp|apply sublist_nil_l]|].
    destruct (IH w1) as [H1 H2].
    destruct (unviewed_photos photos w1) as [out w2]. simpl in *.
    split; [by apply (select_frame_trans _ w1)|].
    destruct (is_viewed p (hist w1)); [by apply sublist_cons|by apply sublist_skip].
Qed.

Lemma photo_with_date_gen_frame calc photos processed w :
  select_frame w (photo_with_date_gen calc photos processed w).2
  ∧ (snd <$> (photo_with_date_gen calc photos processed w).1.1) `sublist_of` photos.
Proof.
  revert processed w. induction photos as [|p photos IH]; intros processed w.
  - split; [apply select_frame_refl|reflexivity].
  - simpl. pose proof (poll_frame w) as Hp.
    destruct (poll w) as [cancelled w1]. simpl in Hp.
    destruct cancelled; [split; [exact Hp|apply sublist_nil_l]|].
    destruct (is_viewed p (hist w1)).
    { destruct (IH processed w1) as [H1 H2].
      split; [by apply (select_frame_trans _ w1)|by apply sublist_cons]. }
    pose proof (poll_frame w1) as Hp'.
    destruct (poll w1) as [cancelled' w2]. simpl in Hp'.
    pose proof (select_frame_trans _ _ _ Hp Hp') as H02.
    destruct cancelled'; [split; [exact H02|apply sublist_nil_l]|].
    set (w3 := if (S processed mod 5000 =? 0)%nat
               then with_cache (save_date_cache (cache w2)) w2 else w2).
    assert (select_frame w2 w3) as H3.
    { unfold w3. destruct (_ =? _)%nat; [apply (flush_cache_frame w2)|apply select_frame_refl]. }
    pose proof (lookup_date_frame calc p w3) as H4.
    destruct (lookup_date calc p w3) as [date w4]. simpl in H4.
    destruct (IH (S processed) w4) as [H5 H6].
    destruct (photo_with_date_gen calc photos (S processed) w4) as [[out n] w5].
    simpl in *. split; [|by apply sublist_skip].
    apply (select_frame_trans _ w2); [exact H02|].
    apply (select_frame_trans _ w3); [exact H3|].
    by apply (select_frame_trans _ w4).
Qed.

Lemma all_photos_with_date_frame calc photos processed w :
  select_frame w (all_photos_with_date calc photos processed w).2
  ∧ (snd <$> (all_photos_with_date calc photos processed w).1.1) `sublist_of` photos.
Proof.
  revert processed w. induction photos as [|p photos IH]; intros processed w.
  - split; [apply select_frame_refl|reflexivity].
  - simpl. pose proof (poll_frame w) as Hp.
    destruct (poll w) as [cancelled w1]. simpl in Hp.
    destruct cancelled; [split; [exact Hp|apply sublist_nil_l]|].
    pose proof (lookup_date_frame calc p w1) as H2.
    destruct (lookup_date calc p w1) as [date w2]. simpl in H2.
    destruct (IH (S processed) w2) as [H3 H4].
    destruct (all_photos_with_date calc photos (S processed) w2) as [[out n] w3].
    simpl in *. split; [|by apply sublist_skip].
    apply (select_frame_trans _ w1); [exact Hp|]. by apply (select_frame_trans _ w2).
Qed.

Lemma submseteq_NoDup_l {A} (l k : list A) : l ⊆+ k → NoDup k → NoDup l.
Proof.
  intros Hsub Hnd. apply submseteq_Permutation in Hsub as [k' Hk].
  rewrite Hk in Hnd. by apply NoDup_app in Hnd as [Hl _].
Qed.

Lemma sample_submseteq {A} (tape : list nat) (population : list A) (k : nat) :
  (sample tape population k).1 ⊆+ population.
Proof.
  revert tape population. induction k as [|k IH]; intros tape population; simpl.
  - apply submseteq_nil_l.
  - destruct (population !! _) as [x|] eqn:Hx; simpl; [|apply submseteq_nil_l].
    specialize (IH (tl tape) (delete (hd 0%nat tape mod length population)%nat population)).
    destruct (sample _ _ k) as [rest tape'] eqn:E. simpl in *.
    rewrite (delete_Permutation population _ x Hx). by apply submseteq_skip.
Qed.

Lemma top_n_submseteq {A} (before : A → A → bool) (n : nat) (items : list A) :
  top_n before n items ⊆+ items.
Proof.
  rewrite top_n_rank_all. rewrite <- (rank_all_perm before items) at 2.
  apply sublist_submseteq, sublist_take.
Qed.

Lemma draw_submseteq count pool w :
  (draw count pool w).1 ⊆+ pool ∧ (length (draw count pool w).1 ≤ count)%nat.
Proof.
  unfold draw.
  pose proof (sample_submseteq (rng w) pool (count `min` length pool)%nat) as H1.
  pose proof (sample_length (rng w) pool (count `min` length pool)%nat ltac:(lia)) as H2.
  destruct (sample (rng w) pool (count `min` length pool)%nat) as [sel tape].
  simpl in *. split; [exact H1|lia].
Qed.

(** Whatever the cancellation does: a selection changes no directory,
    keeps every cached date, and returns a sub-multiset of the photos of
    the library, no more than the clamped count. *)
Lemma select_photos_frame calc count mode w :
  select_frame w (select_photos calc count mode w).2
  ∧ (select_photos calc count mode w).1 ⊆+ iter_photos (library (fs w))
  ∧ (length (select_photos calc count mode w).1 ≤ clamp_count count)%nat.
Proof.
  unfold select_photos. destruct (String.eqb mode "Random").
  - destruct (unviewed_photos_frame (iter_photos (library (fs w))) w) as [H1 H2].
    destruct (unviewed_photos _ w) as [unviewed w1]. simpl in H1, H2.
    destruct (length unviewed <? clamp_count count)%nat.
    + pose proof (draw_frame (clamp_count count) (iter_photos (library (fs (reset_viewed w1))))
                    (reset_viewed w1)) as H3.
      destruct (draw_submseteq (clamp_count count)
                  (iter_photos (library (fs (reset_viewed w1)))) (reset_viewed w1))
        as [H4 H5].
      split; [|split; [|exact H5]].
      * apply (select_frame_trans _ w1); [exact H1|].
        apply (select_frame_trans _ (reset_viewed w1)); [apply reset_viewed_frame|exact H3].
      * destruct H1 as (Hfs & _). rewrite <- Hfs. exact H4.
    + pose proof (draw_frame (clamp_count count) unviewed w1) as H3.
      destruct (draw_submseteq (clamp_count count) unviewed w1) as [H4 H5].
      split; [by apply (select_frame_trans _ w1)|]. split; [|exact H5].
      etrans; [exact H4|]. by apply sublist_submseteq.
  - set (rank := if String.eqb mode "Newest" then nlargest else nsmallest).
    assert (∀ n items, rank n items ⊆+ items ∧ (length (rank n items) ≤ n)%nat) as Hrank.
    { intros n items. unfold rank, nlargest, nsmallest.
      destruct (String.eqb mode "Newest");
        (split; [apply top_n_submseteq|rewrite top_n_length; lia]). }
    destruct (photo_with_date_gen_frame calc (iter_photos (library (fs w))) 0%nat w)
      as [H1 H2].
    destruct (photo_with_date_gen calc _ 0%nat w) as [[scanned n] w1]. simpl in H1, H2.
    pose proof (select_frame_trans _ _ _ H1 (flush_cache_frame w1)) as H12.
    destruct (length (snd <$> rank (clamp_count count) scanned) <? clamp_count count)%nat.
    + set (w3 := reset_viewed (flush_cache w1)).
      assert (select_frame w w3) as H3
        by (apply (select_frame_trans _ (flush_cache w1));
            [exact H12|apply reset_viewed_frame]).
      destruct (all_photos_with_date_frame calc (iter_photos (library (fs w3))) 0%nat w3)
        as [H4 H5].
      destruct (all_photos_with_date calc _ 0%nat w3) as [[scanned' n'] w4].
      simpl in H4, H5. simpl. split; [|split].
      * apply (select_frame_trans _ w3); [exact H3|].
        apply (select_frame_trans _ w4); [exact H4|apply flush_cache_frame].
      * destruct H3 as (Hfs & _).
        assert (snd <$> scanned' ⊆+ iter_photos (library (fs w))) as H6
          by (rewrite <- Hfs; by apply sublist_submseteq).
        etrans; [|exact H6]. apply fmap_submseteq, Hrank.
      * rewrite length_fmap. apply Hrank.
    + simpl. split; [exact H12|]. split.
      * etrans; [|by apply sublist_submseteq]. apply fmap_submseteq, Hrank.
      * rewrite length_fmap. apply Hrank.
Qed.

(** X3.  Whatever happens during a selection, cancellation included,
    every date cached before it is still cached, unchanged, after it. *)
Theorem select_photos_keeps_cached_dates (calc : string → Z) (count : Z) (mode : string)
    (w : world) (q : string) (d : Z) :
  cache_get q (cache w) = Some d →
  cache_get q (cache (select_photos calc count mode w).2) = Some d.
Proof.
  destruct (select_photos_frame calc count mode w) as ((_ & _ & _ & Hc & _) & _).
  apply Hc.
Qed.

Lemma select_photos_keeps_cached_dates_witness :
  cache_get "a.jpg" (cache (select_photos name_length 2 "Newest"
                              (with_cache (cache_put "a.jpg" 7 (cache shutdown_mid_scan))
                                 shutdown_mid_scan)).2) = Some 7.
Proof.
  apply (select_photos_keeps_cached_dates name_length 2 "Newest"
           (with_cache (cache_put "a.jpg" 7 (cache shutdown_mid_scan)) shutdown_mid_scan)
           "a.jpg" 7).
  reflexivity.
Defined.

(** X4.  In every mode and under every cancellation schedule, a
    selection moves no file, returns only photos of the library, never
    more than the clamped count, and never the same photo twice when the
    directory lists each name once. *)
Theorem select_photos_bounded_distinct (calc : string → Z) (count : Z) (mode : string)
    (w : world) :
  fs (select_photos calc count mode w).2 = fs w
  ∧ (∀ p, p ∈ (select_photos calc count mode w).1 → p ∈ iter_photos (library (fs w)))
  ∧ (length (select_photos calc count mode w).1 ≤ clamp_count count)%nat
  ∧ (∀ entries, library (fs w) = Some entries → NoDup (name <$> entries) →
       NoDup (select_photos calc count mode w).1).
Proof.
  destruct (select_photos_frame calc count mode w) as ((Hfs & _) & Hsub & Hlen).
  split; [exact Hfs|]. split; [|split; [exact Hlen|]].
  - intros p Hp. by apply (elem_of_submseteq _ _ _ Hp).
  - intros entries Hlib Hnd. apply (submseteq_NoDup_l _ _ Hsub).
    rewrite Hlib. by apply iter_photos_NoDup.
Qed.

(** ** No file name is lost or made up *)

Definition dir_names (directory : option (list entry)) : list string :=
  match directory with
  | Some entries => name <$> entries
  | None => []
  end.

(** The library or the gallery lists the name [n]. *)
Definition holds (f : filesystem) (n : string) : Prop :=
  n ∈ dir_names (library f) ∨ n ∈ dir_names (gallery f).

Lemma names_remove_entry p entries n :
  n ∈ name <$> remove_entry p entries ↔ n ∈ name <$> entries ∧ n ≠ p.
Proof.
  unfold remove_entry. rewrite !list_elem_of_fmap. split.
  - intros (e & -> & He). apply list_elem_of_filter in He as [Hne He].
    split; [by exists e|exact Hne].
  - intros [(e & -> & He) Hne]. exists e. split; [reflexivity|].
    by apply list_elem_of_filter.
Qed.

Lemma names_add_entry p entries n :
  n ∈ name <$> add_entry p entries ↔ n ∈ name <$> entries ∨ n = p.
Proof.
  unfold add_entry. rewrite fmap_app, elem_of_app, names_remove_entry. simpl.
  rewrite list_elem_of_singleton. destruct (decide (n = p)); tauto.
Qed.

Lemma dir_names_remove p directory n :
  n ∈ dir_names (remove_entry p <$> directory) ↔ n ∈ dir_names directory ∧ n ≠ p.
Proof.
  destruct directory as [entries|]; simpl; [apply names_remove_entry|].
  split; [intros H; by apply elem_of_nil in H|intros [H _]; by apply elem_of_nil in H].
Qed.

Lemma exists_in_names directory p : exists_in directory p = true ↔ p ∈ dir_names directory.
Proof.
  destruct directory as [entries|]; simpl.
  - apply bool_decide_eq_true.
  - split; [discriminate|intros H; by apply elem_of_nil in H].
Qed.

Lemma unlink_gallery_holds p f f' n :
  unlink_gallery p f = Ok f' → p ∈ dir_names (library f) → holds f' n ↔ holds f n.
Proof.
  unfold unlink_gallery, holds. case_bool_decide; [discriminate|].
  intros Hf Hp. injection Hf as <-. simpl. rewrite dir_names_remove.
  destruct (decide (n = p)) as [->|]; tauto.
Qed.

Lemma rename_to_library_holds p f f' n :
  rename_to_library p f = Ok f' → holds f p → holds f' n ↔ holds f n.
Proof.
  unfold rename_to_library, holds. case_bool_decide; [discriminate|].
  destruct (library f) as [lib|] eqn:Hlib; [|discriminate].
  intros Hf Hp. injection Hf as <-. simpl. rewrite dir_names_remove, names_add_entry.
  simpl in Hp. destruct (decide (n = p)) as [->|]; tauto.
Qed.

Lemma rename_to_gallery_holds p f f' n :
  rename_to_gallery p f = Ok f' → holds f p → holds f' n ↔ holds f n.
Proof.
  unfold rename_to_gallery, holds. case_bool_decide; [discriminate|].
  destruct (gallery f) as [gal|] eqn:Hgal; [|discriminate].
  intros Hf Hp. injection Hf as <-. simpl. rewrite dir_names_remove, names_add_entry.
  simpl in Hp. destruct (decide (n = p)) as [->|]; tauto.
Qed.

Lemma poll_fs w : fs (poll w).2 = fs w.
Proof. by destruct (poll_frame w) as (H & _). Qed.

Lemma gallery_pass_holds photos moved dupes w n :
  (∀ p, p ∈ photos → holds (fs w) p) →
  holds (fs (gallery_pass photos moved dupes w).2) n ↔ holds (fs w) n.
Proof.
  revert moved dupes w. induction photos as [|p photos IH]; intros moved dupes w Hall;
    [reflexivity|].
  simpl. pose proof (poll_fs w) as Hp.
  destruct (poll w) as [cancelled w1]. simpl in Hp.
  destruct cancelled; [simpl; by rewrite Hp|].
  assert (holds (fs w1) p) as Hhp by (rewrite Hp; apply Hall; left).
  assert (∀ f, (∀ m, holds f m ↔ holds (fs w1) m) →
               ∀ q, q ∈ photos → holds (fs (with_fs f w1)) q) as Hnext.
  { intros f Hf q Hq. simpl. apply Hf. rewrite Hp. apply Hall. by right. }
  destruct (exists_in (library (fs w1)) p) eqn:Hex.
  - apply exists_in_names in Hex.
    destruct (unlink_gallery p (fs w1)) as [f|e] eqn:Hu.
    + rewrite IH by (apply Hnext; intros m; by apply (unlink_gallery_holds p)).
      simpl. rewrite (unlink_gallery_holds p _ _ n Hu Hex). by rewrite Hp.
    + rewrite IH; [by rewrite Hp|]. intros q Hq. rewrite Hp. apply Hall. by right.
  - destruct (rename_to_library p (fs w1)) as [f|e] eqn:Hr.
    + rewrite IH by (apply Hnext; intros m; by apply (rename_to_library_holds p)).
      simpl. rewrite (rename_to_library_holds p _ _ n Hr Hhp). by rewrite Hp.
    + rewrite IH; [by rewrite Hp|]. intros q Hq. rewrite Hp. apply Hall. by right.
Qed.

Lemma fill_gallery_holds selected moved w n :
  (∀ p, p ∈ selected → holds (fs w) p) →
  holds (fs (fill_gallery selected moved w).2) n ↔ holds (fs w) n.
Proof.
  revert moved w. induction selected as [|p selected IH]; intros moved w Hall;
    [reflexivity|].
  simpl. pose proof (poll_fs w) as Hp.
  destruct (poll w) as [cancelled w1]. simpl in Hp.
  destruct cancelled; [simpl; by rewrite Hp|].
  assert (holds (fs w1) p) as Hhp by (rewrite Hp; apply Hall; left).
  destruct (rename_to_gallery p (fs w1)) as [f|e] eqn:Hr.
  - rewrite IH.
    + simpl. rewrite (rename_to_gallery_holds p _ _ n Hr Hhp). by rewrite Hp.
    + intros q Hq. simpl. apply (rename_to_gallery_holds p _ _ q Hr Hhp).
      rewrite Hp. apply Hall. by right.
  - rewrite IH; [by rewrite Hp|]. intros q Hq. rewrite Hp. apply Hall. by right.
Qed.

Lemma iter_photos_names directory p : p ∈ iter_photos directory → p ∈ dir_names directory.
Proof.
  destruct directory as [entries|]; simpl; [|done].
  intros Hp. apply list_elem_of_fmap in Hp as (e & -> & He).
  apply list_elem_of_filter in He as [_ He]. by apply list_elem_of_fmap_2.
Qed.

Lemma empty_gallery_holds w n : holds (fs (empty_gallery w).2) n ↔ holds (fs w) n.
Proof.
  unfold empty_gallery.
  pose proof (gallery_pass_holds (iter_photos (gallery (fs w))) 0%nat [] w n) as H.
  destruct (gallery_pass _ _ _ w) as [[moved dupes|] w1]; simpl in *;
    rewrite ?forget_dupes_fs; apply H; intros p Hp; right; by apply iter_photos_names.
Qed.

Lemma repopulate_holds calc w n : holds (fs (repopulate calc w).2) n ↔ holds (fs w) n.
Proof.
  unfold repopulate. destruct (photo_count (form w)) as [count|e]; [|reflexivity].
  destruct (select_photos_frame calc count (selection_mode (form w)) w)
    as ((Hfs & _) & Hsub & _).
  destruct (select_photos calc count (selection_mode (form w)) w) as [selected w3].
  simpl in Hfs, Hsub.
  pose proof (fill_gallery_holds selected 0%nat w3 n) as H4.
  destruct (fill_gallery selected 0%nat w3) as [[moved|] w4]; simpl in *;
    rewrite <- Hfs; apply H4; intros p Hp; left; rewrite Hfs;
    apply iter_photos_names; by apply (elem_of_submseteq _ _ _ Hp).
Qed.

(** X5.  However a switch or a clear operation ends (completion,
    cancellation at any point, failing file operations, exception), the
    names listed by the library and the gallery together are the same
    after it as before it: no file name is lost and none appears. *)
Theorem rotation_keeps_names (calc : string → Z) (w : world) (n : string) :
  (holds (fs (switch_body calc w).2) n ↔ holds (fs w) n)
  ∧ (holds (fs (clear_body w).2) n ↔ holds (fs w) n).
Proof.
  split.
  - unfold switch_body. destruct (library (fs w)) as [lib|] eqn:Hlib; [|reflexivity].
    unfold mkdir_gallery.
    assert (∀ f, holds f n ↔ holds (fs w) n →
                 holds (fs (match empty_gallery (with_fs f w) with
                            | (None, w1) => (Cancelled, w1)
                            | (Some _, w2) => repopulate calc w2
                            end).2) n ↔ holds (fs w) n) as Hrest.
    { intros f Hf. pose proof (empty_gallery_holds (with_fs f w) n) as H1.
      destruct (empty_gallery (with_fs f w)) as [[moved|] w1]; simpl in H1.
      - rewrite repopulate_holds, H1. exact Hf.
      - simpl. rewrite H1. exact Hf. }
    destruct (gallery (fs w)) as [gal|] eqn:Hgal.
    + by apply Hrest.
    + destruct (mkdir_ok (fs w)); [|reflexivity].
      apply Hrest. unfold holds. simpl. by rewrite Hlib, Hgal.
  - unfold clear_body. destruct (gallery (fs w)) as [gal|] eqn:Hgal; [|reflexivity].
    pose proof (empty_gallery_holds w n) as H1.
    destruct (empty_gallery w) as [[moved|] w1]; exact H1.
Qed.

(** ** Once the flag is up *)

(** The cancellation flag is set and no further change of it is pending. *)
Definition flag_up (w : world) : Prop :=
  operation_cancelled (ctl w) = true ∧ shutdown_in (ctl w) = None.

Lemma poll_flag_up w : flag_up w → poll w = (true, w).
Proof.
  destruct w as [f h c [lock cancelled shutdown] r s st].
  unfold flag_up, poll, is_set. simpl. intros [-> ->]. reflexivity.
Qed.

Lemma gallery_pass_flag_up photos moved dupes w :
  flag_up w →
  (gallery_pass photos moved dupes w).2 = w
  ∧ ((gallery_pass photos moved dupes w).1 = PassCancelled
     ∨ (gallery_pass photos moved dupes w).1 = PassDone moved dupes).
Proof.
  intros Hup. destruct photos as [|p photos]; [by split; [|right]|].
  simpl. rewrite (poll_flag_up w Hup). by split; [|left].
Qed.

Lemma fill_gallery_flag_up selected moved w :
  flag_up w → (fill_gallery selected moved w).2 = w.
Proof.
  intros Hup. destruct selected as [|p selected]; [reflexivity|].
  simpl. by rewrite (poll_flag_up w Hup).
Qed.

Lemma empty_gallery_flag_up w : flag_up w → (empty_gallery w).2 = w.
Proof.
  intros Hup. unfold empty_gallery.
  destruct (gallery_pass_flag_up (iter_photos (gallery (fs w))) 0%nat [] w Hup) as [H1 H2].
  destruct (gallery_pass _ _ _ w) as [r w1]. simpl in *. subst w1.
  destruct H2 as [->| ->]; reflexivity.
Qed.

Lemma repopulate_flag_up calc w : flag_up w → fs (repopulate calc w).2 = fs w.
Proof.
  intros [Hc Hs]. unfold repopulate.
  destruct (photo_count (form w)) as [count|e]; [|reflexivity].
  destruct (select_photos_frame calc count (selection_mode (form w)) w)
    as ((Hfs & _ & _ & _ & Hctl) & _).
  destruct (select_photos calc count (selection_mode (form w)) w) as [selected w3].
  simpl in Hfs, Hctl.
  assert (flag_up w3) as Hup3 by (unfold flag_up; by rewrite (Hctl Hs)).
  pose proof (fill_gallery_flag_up selected 0%nat w3 Hup3) as H4.
  destruct (fill_gallery selected 0%nat w3) as [[moved|] w4]; simpl in *; by subst w4.
Qed.

Lemma flag_up_rotation_frozen (calc : string → Z) (w : world) :
  flag_up w →
  library (fs (switch_body calc w).2) = library (fs w)
  ∧ dir_names (gallery (fs (switch_body calc w).2)) = dir_names (gallery (fs w))
  ∧ fs (clear_body w).2 = fs w.
Proof.
  intros Hup. split; [|split].
  - unfold switch_body. destruct (library (fs w)) as [lib|] eqn:Hlib; [|exact Hlib].
    destruct (mkdir_gallery (fs w)) as [f|e] eqn:Hmk; [|exact Hlib].
    assert (library f = Some lib) as Hf.
    { unfold mkdir_gallery in Hmk. destruct (gallery (fs w)); [congruence|].
      destruct (mkdir_ok (fs w)); [|discriminate]. injection Hmk as <-. exact Hlib. }
    assert (flag_up (with_fs f w)) as Hup' by exact Hup.
    pose proof (empty_gallery_flag_up _ Hup') as H1.
    destruct (empty_gallery (with_fs f w)) as [[moved|] w1]; simpl in H1; subst w1.
    + by rewrite (repopulate_flag_up calc _ Hup').
    + exact Hf.
  - unfold switch_body. destruct (library (fs w)) as [lib|] eqn:Hlib; [|reflexivity].
    destruct (mkdir_gallery (fs w)) as [f|e] eqn:Hmk; [|reflexivity].
    assert (dir_names (gallery f) = dir_names (gallery (fs w))) as Hf.
    { unfold mkdir_gallery in Hmk. destruct (gallery (fs w)) eqn:Hgal.
      - injection Hmk as <-. by rewrite Hgal.
      - destruct (mkdir_ok (fs w)); [|discriminate]. by injection Hmk as <-. }
    assert (flag_up (with_fs f w)) as Hup' by exact Hup.
    pose proof (empty_gallery_flag_up _ Hup') as H1.
    destruct (empty_gallery (with_fs f w)) as [[moved|] w1]; simpl in H1; subst w1.
    + by rewrite (repopulate_flag_up calc _ Hup').
    + exact Hf.
  - unfold clear_body. destruct (gallery (fs w)); [|reflexivity].
    pose proof (empty_gallery_flag_up w Hup) as H1.
    destruct (empty_gallery w) as [[moved|] w1]; simpl in *; by subst w1.
Qed.

(** X6.  With the cancellation flag up, a switch or a clear operation
    moves and deletes nothing: the library and the gallery list what they
    listed before (a switch may still have created the gallery
    directory, empty). *)
Theorem cancelled_rotation_moves_nothing (calc : string → Z) (w : world) :
  flag_up w →
  library (fs (switch_body calc w).2) = library (fs w)
  ∧ dir_names (gallery (fs (switch_body calc w).2)) = dir_names (gallery (fs w))
  ∧ fs (clear_body w).2 = fs w.
Proof. apply flag_up_rotation_frozen. Qed.

Lemma cancelled_rotation_moves_nothing_witness :
  library (fs (switch_body name_length
                 (with_ctl (mkControl true true None) duplicate_in_gallery)).2)
  = library (fs duplicate_in_gallery)
  ∧ fs (clear_body (with_ctl (mkControl true true None) duplicate_in_gallery)).2
    = fs duplicate_in_gallery.
Proof.
  destruct (cancelled_rotation_moves_nothing name_length
              (with_ctl (mkControl true true None) duplicate_in_gallery))
    as (H1 & _ & H3).
  - split; reflexivity.
  - exact (conj H1 H3).
Defined.

(** ** The viewed set while the gallery is filled *)

Lemma fill_gallery_gallery_names selected moved w n :
  n ∈ dir_names (gallery (fs w)) →
  n ∈ dir_names (gallery (fs (fill_gallery selected moved w).2)).
Proof.
  revert moved w. induction selected as [|p selected IH]; intros moved w Hn; [exact Hn|].
  simpl. pose proof (poll_fs w) as Hp.
  destruct (poll w) as [cancelled w1]. simpl in Hp.
  destruct cancelled; [simpl; by rewrite Hp|].
  destruct (rename_to_gallery p (fs w1)) as [f|e] eqn:Hr.
  - apply IH. simpl. unfold rename_to_gallery in Hr.
    case_bool_decide; [discriminate|].
    destruct (gallery (fs w1)) as [gal|] eqn:Hgal; [|discriminate].
    injection Hr as <-. simpl. apply names_add_entry. left.
    rewrite Hp in Hgal. by rewrite Hgal in Hn.
  - apply IH. by rewrite Hp.
Qed.

Lemma poll_hist w : hist (poll w).2 = hist w.
Proof. unfold poll. by destruct (is_set (ctl w)). Qed.

(** X7.  While the gallery is filled, under any cancellation schedule
    and any failing renames: the viewed set only grows; every name it
    gains is the name of a selected photo that the gallery now lists; and
    the number reported lies between the number it started from and that
    number plus the number of photos selected. *)
Theorem fill_gallery_marks_viewed (selected : list string) (moved : nat) (w : world) :
  (∀ k, k ∈ viewed_photos (hist w) →
        k ∈ viewed_photos (hist (fill_gallery selected moved w).2))
  ∧ (∀ k, k ∈ viewed_photos (hist (fill_gallery selected moved w).2) →
          k ∈ viewed_photos (hist w)
          ∨ ∃ p, p ∈ selected ∧ k = KStr p
                 ∧ p ∈ dir_names (gallery (fs (fill_gallery selected moved w).2)))
  ∧ (∀ m, (fill_gallery selected moved w).1 = Some m →
          (moved ≤ m ≤ moved + length selected)%nat).
Proof.
  revert moved w. induction selected as [|p selected IH]; intros moved w.
  - simpl. split; [auto|]. split; [auto|]. intros m Hm. injection Hm as <-. lia.
  - simpl. pose proof (poll_hist w) as Hh. pose proof (poll_fs w) as Hf.
    destruct (poll w) as [cancelled w1]. simpl in Hh, Hf.
    destruct cancelled.
    { simpl. rewrite Hh. split; [auto|]. split; [auto|]. discriminate. }
    destruct (rename_to_gallery p (fs w1)) as [f|e] eqn:Hr.
    + set (w2 := with_hist (set_viewed ({[KStr p]} ∪ viewed_photos (hist w1)) (hist w1))
                   (with_fs f w1)).
      destruct (IH (S moved) w2) as (H1 & H2 & H3).
      assert (p ∈ dir_names (gallery (fs w2))) as Hpg.
      { unfold w2. simpl. unfold rename_to_gallery in Hr.
        case_bool_decide; [discriminate|].
        destruct (gallery (fs w1)) as [gal|]; [|discriminate].
        injection Hr as <-. simpl. apply names_add_entry. by right. }
      split; [|split].
      * intros k Hk. apply H1. unfold w2. simpl. rewrite Hh.
        apply elem_of_union. by right.
      * intros k Hk. apply H2 in Hk. destruct Hk as [Hk|(q & Hq & -> & Hqg)].
        -- unfold w2 in Hk. simpl in Hk. apply elem_of_union in Hk.
           destruct Hk as [Hk|Hk].
           ++ apply elem_of_singleton in Hk. subst k. right. exists p.
              split; [left|]. split; [reflexivity|].
              by apply fill_gallery_gallery_names.
           ++ left. by rewrite <- Hh.
        -- right. exists q. split; [by right|]. by split.
      * intros m Hm. apply H3 in Hm. simpl. lia.
    + destruct (IH moved w1) as (H1 & H2 & H3). rewrite Hh in H1, H2.
      split; [exact H1|]. split.
      * intros k Hk. apply H2 in Hk. destruct Hk as [Hk|(q & Hq & -> & Hqg)];
          [by left|]. right. exists q. split; [by right|]. by split.
      * intros m Hm. apply H3 in Hm. simpl. lia.
Qed.

(** ** Single flight *)

Lemma launcher_started_holds_lock (attempt : world → result (launch * world)) w w1 :
  (∀ w0, attempt w0 = start_thread w0 ∨ attempt w0 = turn_down ValueError w0
         ∨ ∃ e, attempt w0 = Raise e) →
  (if operation_lock (ctl w) then Ok (Busy, w)
   else Py.try_except (attempt (accept w)) (fun e => turn_down e (accept w)))
  = Ok (Started, w1) →
  operation_lock (ctl w1) = true.
Proof.
  intros Hcases E. destruct (operation_lock (ctl w)) eqn:Hlock; [discriminate|].
  destruct (launch_lifecycle attempt w Hcases Hlock) as (l & w' & E' & _ & _ & Hs & _).
  rewrite E' in E. injection E as -> ->. by apply Hs.
Qed.

(** X8.  While a worker started by a switch or a clear request holds the
    lock, a further switch request, clear request or history reset is
    turned away at once and changes nothing. *)
Theorem single_flight (w w1 : world) :
  switch_photos_async w = Ok (Started, w1) ∨ clear_gallery_async w = Ok (Started, w1) →
  switch_photos_async w1 = Ok (Busy, w1)
  ∧ clear_gallery_async w1 = Ok (Busy, w1)
  ∧ reset_history w1 = w1.
Proof.
  intros Hstarted.
  assert (operation_lock (ctl w1) = true) as Hlock.
  { destruct Hstarted as [E|E].
    - by apply (launcher_started_holds_lock switch_launch w w1 switch_launch_cases).
    - by apply (launcher_started_holds_lock clear_launch w w1 clear_launch_cases). }
  unfold switch_photos_async, clear_gallery_async, reset_history. by rewrite Hlock.
Qed.

Lemma single_flight_witness :
  switch_photos_async (accept idle_three_photos) = Ok (Busy, accept idle_three_photos)
  ∧ clear_gallery_async (accept idle_three_photos) = Ok (Busy, accept idle_three_photos)
  ∧ reset_history (accept idle_three_photos) = accept idle_three_photos.
Proof.
  apply (single_flight idle_three_photos (accept idle_three_photos)).
  left. reflexivity.
Defined.

(** ** A switch that nothing disturbs *)

Lemma load_saved_viewed h :
  log_writable h = true →
  load_viewed_photos (log_file (save_viewed_photos h)) = Ok (viewed_photos h).
Proof.
  intros Hw. unfold save_viewed_photos. rewrite Hw.
  unfold load_viewed_photos, dump_viewed. simpl.
  rewrite py_set_key_json. simpl. by rewrite list_to_set_elements_L.
Qed.

(** The two directories once every photo of [selected] has been renamed
    into the gallery. *)
Definition filled (f : filesystem) (lib gal : list entry) (selected : list string)
  : filesystem :=
  mkFs (Some (foldl (fun l p => remove_entry p l) lib selected))
       (Some (foldl (fun g p => add_entry p g) gal selected))
       (unmovable f) (mkdir_ok f).

Definition mark_all (selected : list string) (s : gset pykey) : gset pykey :=
  foldl (fun acc p => {[ KStr p ]} ∪ acc) s selected.

Lemma fill_gallery_quiet selected :
  ∀ moved w lib gal,
    quiet w → library (fs w) = Some lib → gallery (fs w) = Some gal →
    (∀ p, p ∈ selected → p ∉ unmovable (fs w)) →
    fill_gallery selected moved w
    = (Some (moved + length selected)%nat,
       with_hist (set_viewed (mark_all selected (viewed_photos (hist w))) (hist w))
         (with_fs (filled (fs w) lib gal selected) w)).
Proof.
  induction selected as [|p selected IH]; intros moved w lib gal Hq Hlib Hgal Hmov.
  - simpl. rewrite Nat.add_0_r. f_equal. unfold filled, mark_all. simpl.
    rewrite <- Hlib, <- Hgal.
    by destruct w as [[l g u m] [v lf lw] c k r s st].
  - assert (p ∉ unmovable (fs w)) as Hpm by (apply Hmov; left).
    simpl. rewrite (poll_quiet w Hq). unfold rename_to_gallery.
    rewrite bool_decide_false by exact Hpm. rewrite Hgal, Hlib. simpl.
    rewrite (IH (S moved)
               (with_hist (set_viewed ({[KStr p]} ∪ viewed_photos (hist w)) (hist w))
                  (with_fs (mkFs (Some (remove_entry p lib)) (Some (add_entry p gal))
                                 (unmovable (fs w)) (mkdir_ok (fs w))) w))
               (remove_entry p lib) (add_entry p gal) Hq eq_refl eq_refl).
    + f_equal. f_equal. lia.
    + intros q Hq'. simpl. apply Hmov. by right.
Qed.

Lemma mark_all_spec selected s k :
  k ∈ mark_all selected s ↔ k ∈ s ∨ ∃ p, p ∈ selected ∧ k = KStr p.
Proof.
  unfold mark_all. revert s. induction selected as [|p selected IH]; intros s; simpl.
  - split; [by left|]. intros [H|(p & Hp & _)]; [exact H|by apply elem_of_nil in Hp].
  - rewrite IH, elem_of_union, elem_of_singleton. split.
    + intros [[->|H]|(q & Hq & ->)].
      * right. exists p. split; [left|reflexivity].
      * by left.
      * right. exists q. split; [by right|reflexivity].
    + intros [H|(q & Hq & ->)]; [left; by right|].
      apply elem_of_cons in Hq. destruct Hq as [->|Hq]; [left; by left|].
      right. by exists q.
Qed.

Lemma names_foldl_remove selected lib n :
  n ∈ name <$> foldl (fun l p => remove_entry p l) lib selected
  ↔ n ∈ name <$> lib ∧ n ∉ selected.
Proof.
  revert lib. induction selected as [|p selected IH]; intros lib; simpl.
  - split; [intros H; split; [exact H|apply not_elem_of_nil]|tauto].
  - rewrite IH, names_remove_entry, not_elem_of_cons. tauto.
Qed.

Lemma iter_photos_add_entry p gal :
  is_photo (mkEntry p true) = true →
  iter_photos (Some (add_entry p gal))
  = (filter (fun q => q ≠ p) (iter_photos (Some gal)) ++ [p])%list.
Proof.
  intros Hp. unfold iter_photos, add_entry, remove_entry.
  rewrite filter_app, fmap_app. f_equal.
  - induction gal as [|e gal IH]; [reflexivity|].
    rewrite (filter_cons (fun e => name e ≠ p)).
    rewrite (filter_cons (fun e => is_photo e = true) e gal).
    destruct (decide (name e ≠ p)) as [Hne|Heq];
      destruct (decide (is_photo e = true)) as [He|He].
    + rewrite filter_cons_True by exact He. rewrite !fmap_cons.
      rewrite filter_cons_True by exact Hne. by rewrite IH.
    + rewrite filter_cons_False by exact He. exact IH.
    + rewrite fmap_cons. rewrite filter_cons_False by exact Heq. exact IH.
    + exact IH.
  - rewrite filter_cons_True by exact Hp. reflexivity.
Qed.

Lemma iter_photos_foldl_add selected :
  ∀ gal, NoDup selected → (∀ p, p ∈ selected → is_photo (mkEntry p true) = true) →
  iter_photos (Some (foldl (fun g p => add_entry p g) gal selected))
  = (filter (fun q => q ∉ selected) (iter_photos (Some gal)) ++ selected)%list.
Proof.
  induction selected as [|p selected IH]; intros gal Hnd Hphoto.
  - simpl. rewrite app_nil_r. symmetry. apply filter_all.
    intros q _. apply not_elem_of_nil.
  - apply NoDup_cons in Hnd as [Hp Hnd]. cbn [foldl].
    rewrite IH by (try done; intros q Hq; apply Hphoto; by right).
    rewrite iter_photos_add_entry by (apply Hphoto; left).
    rewrite filter_app, list_filter_filter.
    rewrite (filter_cons_True (fun q => q ∉ selected) p []) by exact Hp.
    rewrite <- app_assoc. cbn [app filter list_filter]. f_equal.
    apply list_filter_iff. intros q. rewrite not_elem_of_cons. tauto.
Qed.

Lemma iter_photos_is_photo directory p :
  p ∈ iter_photos directory → is_photo (mkEntry p true) = true.
Proof.
  destruct directory as [entries|]; simpl; [|intros H; by apply elem_of_nil in H].
  intros Hp. apply list_elem_of_fmap in Hp as (e & -> & He).
  apply list_elem_of_filter in He as [He _].
  unfold is_photo in *. apply andb_true_iff in He as [_ He]. exact He.
Qed.

Lemma iter_photos_emptied gal :
  iter_photos (Some (filter (fun e => name e ∉ iter_photos (Some gal)) gal)) = [].
Proof.
  unfold iter_photos at 1. rewrite list_filter_filter.
  rewrite (filter_ext_in _ (fun _ => False) gal).
  - induction gal as [|e gal IH]; [reflexivity|].
    rewrite filter_cons_False by tauto. exact IH.
  - intros e He. split; [|tauto]. intros [Hphoto Hout]. apply Hout.
    unfold iter_photos. apply list_elem_of_fmap. exists e.
    split; [reflexivity|]. by apply list_elem_of_filter.
Qed.

Lemma forget_dupes_rest dupes w :
  ctl (forget_dupes dupes w) = ctl w ∧ form (forget_dupes dupes w) = form w
  ∧ log_writable (hist (forget_dupes dupes w)) = log_writable (hist w).
Proof.
  destruct dupes as [|d dupes]; [done|]. unfold forget_dupes, save_viewed_photos. simpl.
  by destruct (log_writable (hist w)) eqn:E.
Qed.

Lemma emptied_library_NoDup lib (photos : list string) :
  NoDup (name <$> lib) → NoDup photos →
  NoDup (name <$> (lib ++ ((fun p => mkEntry p true)
                             <$> filter (fun p => p ∉ name <$> lib) photos))%list).
Proof.
  intros Hndl Hndp. rewrite fmap_app, names_of_files. apply NoDup_app.
  split; [exact Hndl|]. split.
  - intros x Hx Hx'. apply list_elem_of_filter in Hx' as [Hx' _]. done.
  - by apply NoDup_filter.
Qed.

(** X9.  A switch that nothing disturbs (both directories present, no
    cancellation, no failing file operation, names unique within each
    directory, a count that is a number) completes: it reports the number
    of photos it selected; afterwards the photos of the gallery are
    exactly the selected ones, distinct and no more than the clamped
    count; each of them has left the library and is in the viewed set;
    every photo the gallery held before and that was not selected again
    is in the library; and, the record being writable, the persisted
    view history loads back as the viewed set in memory. *)
Theorem switch_completes (calc : string → Z) (w : world) (lib gal : list entry) (count : Z) :
  quiet w → library (fs w) = Some lib → gallery (fs w) = Some gal →
  unmovable (fs w) = ∅ → NoDup (name <$> lib) → NoDup (name <$> gal) →
  photo_count (form w) = Ok count →
  ∃ selected w',
    switch_body calc w = (Completed, w')
    ∧ status w' = Some (Switched (length selected))
    ∧ NoDup selected
    ∧ (length selected ≤ clamp_count count)%nat
    ∧ iter_photos (gallery (fs w')) = selected
    ∧ (∀ p, p ∈ selected →
            (p ∉ dir_names (library (fs w'))) ∧ KStr p ∈ viewed_photos (hist w'))
    ∧ (∀ p, p ∈ iter_photos (Some gal) → p ∉ selected → p ∈ dir_names (library (fs w')))
    ∧ (log_writable (hist w) = true →
       load_viewed_photos (log_file (hist w')) = Ok (viewed_photos (hist w'))).
Proof.
  intros Hq Hlib Hgal Hun Hndl Hndg Hcount.
  assert (∀ p, p ∈ iter_photos (Some gal) → p ∉ unmovable (fs w)) as Hmov
    by (intros p _; rewrite Hun; apply not_elem_of_empty).
  pose proof (empty_gallery_quiet w lib gal Hq Hlib Hgal Hmov Hndg) as E.
  set (photos := iter_photos (Some gal)) in *.
  set (fresh := filter (fun p => p ∉ name <$> lib) photos) in *.
  set (w2 := forget_dupes (filter (fun p => p ∈ name <$> lib) photos)
               (with_fs (emptied (fs w) lib gal photos) w)) in *.
  set (lib2 := (lib ++ ((fun p => mkEntry p true) <$> fresh))%list).
  set (gal2 := filter (fun e => name e ∉ photos) gal).
  destruct (forget_dupes_rest (filter (fun p => p ∈ name <$> lib) photos)
              (with_fs (emptied (fs w) lib gal photos) w)) as (Hctl2 & Hform2 & Hlw2).
  fold w2 in Hctl2, Hform2, Hlw2. simpl in Hctl2, Hform2, Hlw2.
  assert (fs w2 = emptied (fs w) lib gal photos) as Hfs2
    by (unfold w2; by rewrite forget_dupes_fs).
  assert (quiet w2) as Hq2 by (unfold quiet; by rewrite Hctl2).
  assert (NoDup (name <$> lib2)) as Hnd2
    by (apply emptied_library_NoDup; [exact Hndl|by apply iter_photos_NoDup]).
  (* the selection *)
  destruct (select_photos_frame calc count (selection_mode (form w2)) w2)
    as ((Hfs3 & _ & _ & _ & Hctl3) & Hsub & Hlen).
  destruct (select_photos_quiet calc count (selection_mode (form w2)) w2 Hq2)
    as (Hh3 & _ & _).
  destruct (select_photos calc count (selection_mode (form w2)) w2) as [selected w3] eqn:Es.
  simpl in Hfs3, Hctl3, Hsub, Hlen, Hh3.
  assert (quiet w3) as Hq3.
  { destruct Hq2 as [Hc Hs]. unfold quiet. by rewrite (Hctl3 Hs). }
  assert (library (fs w3) = Some lib2) as Hlib3 by (by rewrite Hfs3, Hfs2).
  assert (gallery (fs w3) = Some gal2) as Hgal3 by (by rewrite Hfs3, Hfs2).
  assert (selected ⊆+ iter_photos (Some lib2)) as Hsub'
    by (by rewrite Hfs2 in Hsub).
  assert (NoDup selected) as Hnds
    by (apply (submseteq_NoDup_l _ _ Hsub'); by apply iter_photos_NoDup).
  assert (∀ p, p ∈ selected → p ∉ unmovable (fs w3)) as Hmov3.
  { intros p _. rewrite Hfs3, Hfs2. simpl. rewrite Hun. apply not_elem_of_empty. }
  pose proof (fill_gallery_quiet selected 0%nat w3 lib2 gal2 Hq3 Hlib3 Hgal3 Hmov3) as Ef.
  (* the result *)
  set (h4 := set_viewed (mark_all selected (viewed_photos (hist w3))) (hist w3)) in *.
  set (w4 := with_hist h4 (with_fs (filled (fs w3) lib2 gal2 selected) w3)) in *.
  set (w' := with_status (Switched (length selected))
               (with_hist (save_viewed_photos (hist w4)) w4)).
  assert (library (fs w') = Some (foldl (fun l p => remove_entry p l) lib2 selected))
    as Hlib' by reflexivity.
  assert (gallery (fs w') = Some (foldl (fun g p => add_entry p g) gal2 selected))
    as Hgal' by reflexivity.
  assert (hist w' = save_viewed_photos h4) as Hh' by reflexivity.
  assert (∀ h, viewed_photos (save_viewed_photos h) = viewed_photos h) as Hsave
    by (intros h; unfold save_viewed_photos; by destruct (log_writable h)).
  exists selected, w'. split.
  { unfold switch_body, mkdir_gallery. rewrite Hlib, Hgal, with_fs_same, E.
    unfold repopulate. rewrite Hform2, Hcount. rewrite <- Hform2, Es, Ef. reflexivity. }
  split; [reflexivity|]. split; [exact Hnds|]. split; [exact Hlen|].
  rewrite Hlib', Hgal', Hh', Hsave.
  split; [|split; [|split]].
  - rewrite iter_photos_foldl_add.
    + unfold gal2, photos. by rewrite iter_photos_emptied.
    + exact Hnds.
    + intros p Hp. apply (iter_photos_is_photo (Some lib2)).
      by apply (elem_of_submseteq _ _ _ Hp).
  - intros p Hp. split.
    + unfold dir_names. rewrite names_foldl_remove. tauto.
    + unfold h4. simpl. apply mark_all_spec. right. by exists p.
  - intros p Hp Hnp. unfold dir_names. apply names_foldl_remove. split; [|exact Hnp].
    unfold lib2. rewrite fmap_app, names_of_files, elem_of_app.
    destruct (decide (p ∈ name <$> lib)) as [Hin|Hin]; [by left|right].
    unfold fresh. by apply list_elem_of_filter.
  - intros Hw. apply load_saved_viewed.
    unfold h4. simpl.
    rewrite Hh3. destruct (_ <? _)%nat.
    + unfold save_viewed_photos. simpl. rewrite Hlw2, Hw. reflexivity.
    + by rewrite Hlw2.
Qed.

Lemma switch_completes_witness :
  ∃ selected w',
    switch_body name_length duplicate_in_gallery = (Completed, w')
    ∧ status w' = Some (Switched (length selected))
    ∧ iter_photos (gallery (fs w')) = selected
    ∧ (length selected ≤ 1)%nat.
Proof.
  destruct (switch_completes name_length duplicate_in_gallery
              [mkEntry "a.jpg" true; mkEntry "b.jpg" true; mkEntry "Gallery" false]
              [mkEntry "a.jpg" true; mkEntry "c.jpg" true; mkEntry "list.txt" true] 1)
    as (selected & w' & E & Hst & _ & Hlen & Hgal & _).
  - split; reflexivity.
  - reflexivity.
  - reflexivity.
  - reflexivity.
  - apply three_names_NoDup; discriminate.
  - apply three_names_NoDup; discriminate.
  - reflexivity.
  - exists selected, w'. exact (conj E (conj Hst (conj Hgal Hlen))).
Defined.

(** ** The schedule poller *)

(** [a < b] on [datetime] *)
Definition dt_lt (a b : datetime) : bool :=
  (ordinal a <? ordinal b) || ((ordinal a =? ordinal b) && (tod a <? tod b)).

(** What [update_next_switch] puts in [self.next_switch]: the text
    ["No switches scheduled"], the time [t] as [%H:%M], or that time
    followed by [" (tomorrow)"]. *)
Inductive next_switch_text : Type :=
| NoSwitches
| NextAt (t : datetime)
| Tomorrow (t : datetime).

(** The loop of l.266-269: the first entry later than [now]. *)
Fixpoint first_after (now : datetime) (switch_times : list datetime) : option datetime :=
  match switch_times with
  | [] => None
  | t :: rest => if dt_lt now t then Some t else first_after now rest
  end.

(** [update_next_switch] (l.259-271).  [now0] is the clock read inside
    [get_switch_times], [now] the one read after it. *)
Definition update_next_switch (now0 now : datetime) (main_time : string)
    (switches_per_day : result Z) : next_switch_text :=
  match get_switch_times now0 main_time switches_per_day with
  | Ok (t0 :: rest) =>
      match first_after now (t0 :: rest) with
      | Some t => NextAt t
      | None => Tomorrow t0
      end
  | _ => NoSwitches
  end.

(** [t.replace(second=0, microsecond=0)] *)
Definition minute_start (t : datetime) : datetime :=
  mkDatetime (ordinal t) (tod t - tod t mod 60000000).

Definition same_instant (a b : datetime) : bool :=
  (ordinal a =? ordinal b) && (tod a =? tod b).

(** [check_scheduled_switches] (l.273-288): [None] when no switch is
    requested, else what [switch_photos_async] returns. *)
Definition check_scheduled_switches (now0 now : datetime) (main_time : string)
    (switches_per_day : result Z) (w : world) : option (result (launch * world)) :=
  if operation_lock (ctl w) then None
  else
    match get_switch_times now0 main_time switches_per_day with
    | Ok switch_times =>
        if existsb (fun t => same_instant (minute_start t) (minute_start now)) switch_times
        then Some (switch_photos_async w)
        else None
    | Raise _ => None
    end.

Lemma get_switch_times_sorted now s sw :
  ∃ times, get_switch_times now s sw = Ok times ∧ StronglySorted dt_le times.
Proof.
  unfold get_switch_times.
  destruct (validate_time_format s); simpl; [|exists []; split; [done|constructor]].
  destruct sw as [n|e]; simpl; [|exists []; split; [done|constructor]].
  destruct ((n <=? 0) || (100 <? n)); [exists []; split; [done|constructor]|].
  destruct (hour_minute s) as [[h m]|e]; simpl; [|exists []; split; [done|constructor]].
  destruct (replace_time now h m) as [main|e]; simpl;
    [|exists []; split; [done|constructor]].
  destruct (n =? 1).
  - exists [main]. split; [done|]. repeat constructor.
  - destruct (mapM _ _) as [times|e]; simpl.
    + eexists. split; [reflexivity|]. apply StronglySorted_merge_sort; apply _.
    + exists []. split; [done|constructor].
Qed.

Lemma dt_lt_le a b : dt_lt a b = false ↔ dt_le b a.
Proof.
  unfold dt_lt, dt_le. rewrite orb_false_iff, andb_false_iff.
  rewrite !Z.ltb_ge, Z.eqb_neq. lia.
Qed.

Lemma first_after_sorted now times :
  StronglySorted dt_le times →
  match first_after now times with
  | Some t => t ∈ times ∧ dt_lt now t = true
              ∧ ∀ t', t' ∈ times → dt_lt now t' = true → dt_le t t'
  | None => ∀ t', t' ∈ times → dt_lt now t' = false
  end.
Proof.
  induction 1 as [|t times Hsorted IH Hall]; simpl.
  - intros t' Ht'. by apply elem_of_nil in Ht'.
  - destruct (dt_lt now t) eqn:Hlt.
    + split; [left|]. split; [exact Hlt|].
      intros t' Ht' _. apply elem_of_cons in Ht'. destruct Ht' as [->|Ht'].
      * unfold dt_le. lia.
      * rewrite Forall_forall in Hall. by apply Hall.
    + destruct (first_after now times) as [t1|].
      * destruct IH as (Hin & Hlt1 & Hmin). split; [by right|]. split; [exact Hlt1|].
        intros t' Ht' Hlt'. apply elem_of_cons in Ht'. destruct Ht' as [->|Ht'];
          [congruence|by apply Hmin].
      * intros t' Ht'. apply elem_of_cons in Ht'. destruct Ht' as [->|Ht'];
          [exact Hlt|by apply IH].
Qed.

(** X10.  The next-switch display names the earliest scheduled time that
    is later than the present moment; when no scheduled time is later, it
    names the earliest scheduled time as tomorrow's; it says that nothing
    is scheduled exactly when the schedule is empty. *)
Theorem update_next_switch_earliest (now0 now : datetime) (main_time : string)
    (switches_per_day : result Z) :
  ∃ times,
    get_switch_times now0 main_time switches_per_day = Ok times
    ∧ match update_next_switch now0 now main_time switches_per_day with
      | NoSwitches => times = []
      | NextAt t =>
          t ∈ times ∧ dt_lt now t = true
          ∧ ∀ t', t' ∈ times → dt_lt now t' = true → dt_le t t'
      | Tomorrow t =>
          t ∈ times ∧ (∀ t', t' ∈ times → dt_lt now t' = false)
          ∧ ∀ t', t' ∈ times → dt_le t t'
      end.
Proof.
  destruct (get_switch_times_sorted now0 main_time switches_per_day)
    as (times & E & Hsorted).
  exists times. split; [exact E|]. unfold update_next_switch. rewrite E.
  destruct times as [|t0 rest]; [reflexivity|].
  pose proof (first_after_sorted now (t0 :: rest) Hsorted) as Hfirst.
  destruct (first_after now (t0 :: rest)) as [t|]; [exact Hfirst|].
  split; [left|]. split; [exact Hfirst|].
  intros t' Ht'. apply elem_of_cons in Ht'. destruct Ht' as [->|Ht'].
  - unfold dt_le. lia.
  - apply StronglySorted_inv in Hsorted as [_ Hall].
    rewrite Forall_forall in Hall. by apply Hall.
Qed.

Lemma base_in_switch_times now s h m n :
  1 ≤ ordinal now < MAX_ORDINAL → strptime_HM s = Ok (h, m) → 1 ≤ n ≤ 100 →
  ∃ times, get_switch_times now s (Ok n) = Ok times
           ∧ mkDatetime (ordinal now) (clock_us h m) ∈ times
           ∧ length times = Z.to_nat n
           ∧ ∀ t, t ∈ times → ordinal t = ordinal now ∧ 0 ≤ tod t < DAY_US.
Proof.
  intros Hday Hs Hn.
  destruct (strptime_HM_hour_minute s h m Hs) as (_ & Hh & Hm).
  assert (0 ≤ clock_us h m < DAY_US) as Hclock by (unfold clock_us, DAY_US; lia).
  destruct (decide (n = 1)) as [->|Hne].
  - rewrite (get_switch_times_valid now s h m 1 Hs) by lia. simpl.
    eexists. split; [reflexivity|]. split; [left|]. split; [reflexivity|].
    intros t Ht. apply list_elem_of_singleton in Ht. by subst t.
  - rewrite (get_switch_times_spaced now s h m n Hday Hs) by lia.
    eexists. split; [reflexivity|].
    assert (∀ t, t ∈ merge_sort dt_le (spaced_today now h m n) ↔ t ∈ spaced_today now h m n)
      as Hmem by (intros t; by rewrite merge_sort_Permutation).
    split; [|split].
    + apply Hmem. unfold spaced_today. apply list_elem_of_fmap. exists 0.
      split; [|apply elem_of_seqZ; lia].
      rewrite Z.mul_0_r, Z.add_0_r, Z.mod_small by lia. reflexivity.
    + rewrite merge_sort_Permutation. unfold spaced_today.
      by rewrite length_fmap, length_seqZ.
    + intros t Ht. apply Hmem in Ht. unfold spaced_today in Ht.
      apply list_elem_of_fmap in Ht as (i & -> & _). simpl.
      split; [reflexivity|]. apply Z.mod_pos_bound. unfold DAY_US. lia.
Qed.

(** X11.  For a valid base time and a count between 1 and 100, on any
    day but the last of the calendar, the schedule has exactly that many
    entries, the base time itself is one of them, and every entry is a
    time of day on today's date. *)
Theorem switch_times_contain_base (now : datetime) (base_time : string) (h m n : Z) :
  1 ≤ ordinal now < MAX_ORDINAL → strptime_HM base_time = Ok (h, m) → 1 ≤ n ≤ 100 →
  ∃ times, get_switch_times now base_time (Ok n) = Ok times
           ∧ mkDatetime (ordinal now) (clock_us h m) ∈ times
           ∧ length times = Z.to_nat n
           ∧ ∀ t, t ∈ times → ordinal t = ordinal now ∧ 0 ≤ tod t < DAY_US.
Proof. apply base_in_switch_times. Qed.

Lemma switch_times_contain_base_witness :
  ∃ times, get_switch_times (mkDatetime 739000 0) "6:30" (Ok 7) = Ok times
           ∧ mkDatetime 739000 (clock_us 6 30) ∈ times
           ∧ length times = 7%nat.
Proof.
  destruct (switch_times_contain_base (mkDatetime 739000 0) "6:30" 6 30 7)
    as (times & E & Hbase & Hlen & _).
  - unfold MAX_ORDINAL. simpl. lia.
  - reflexivity.
  - lia.
  - exists times. exact (conj E (conj Hbase Hlen)).
Defined.

(** X12.  The poller requests nothing while the lock is held.  With the
    lock free, a valid base time and a count between 1 and 100, a tick
    that falls in the minute of the base time, on the day the schedule
    was computed for, requests a switch. *)
Theorem scheduled_switch_fires_at_base_time (now0 now : datetime) (main_time : string)
    (h m n : Z) (w : world) :
  1 ≤ ordinal now0 < MAX_ORDINAL → strptime_HM main_time = Ok (h, m) → 1 ≤ n ≤ 100 →
  ordinal now = ordinal now0 → clock_us h m ≤ tod now < clock_us h m + 60000000 →
  check_scheduled_switches now0 now main_time (Ok n) w
  = if operation_lock (ctl w) then None else Some (switch_photos_async w).
Proof.
  intros Hday Hs Hn Hord Htod. unfold check_scheduled_switches.
  destruct (operation_lock (ctl w)); [reflexivity|].
  destruct (base_in_switch_times now0 main_time h m n Hday Hs Hn)
    as (times & E & Hbase & _).
  rewrite E.
  assert (existsb (fun t => same_instant (minute_start t) (minute_start now)) times = true)
    as ->; [|reflexivity].
  apply existsb_exists. exists (mkDatetime (ordinal now0) (clock_us h m)).
  split; [by apply list_elem_of_In|].
  unfold same_instant, minute_start. simpl.
  apply andb_true_iff. split; [apply Z.eqb_eq; lia|]. apply Z.eqb_eq.
  assert (clock_us h m mod 60000000 = 0) as H0
    by (unfold clock_us; apply Z.mod_mul; lia).
  rewrite H0, Z.sub_0_r.
  assert (tod now mod 60000000 = tod now - clock_us h m) as ->; [|lia].
  symmetry. apply (Z.mod_unique_pos _ _ (h * 60 + m)); [lia|].
  unfold clock_us. lia.
Qed.

Lemma scheduled_switch_fires_at_base_time_witness :
  check_scheduled_switches (mkDatetime 739000 0) (mkDatetime 739000 (clock_us 21 15 + 42))
    "21:15" (Ok 2) idle_three_photos
  = Some (switch_photos_async idle_three_photos).
Proof.
  apply (scheduled_switch_fires_at_base_time (mkDatetime 739000 0)
           (mkDatetime 739000 (clock_us 21 15 + 42)) "21:15" 21 15 2 idle_three_photos).
  - unfold MAX_ORDINAL. simpl. lia.
  - reflexivity.
  - lia.
  - reflexivity.
  - simpl. unfold clock_us. lia.
Defined.

(** ** Which directory entries are photos *)

Lemma lower_ascii_dot c : Ascii.eqb (lower_ascii c) "." = Ascii.eqb c ".".
Proof. destruct c as [[] [] [] [] [] [] [] []]; reflexivity. Qed.

Lemma lower_ascii_idem c : lower_ascii (lower_ascii c) = lower_ascii c.
Proof. destruct c as [[] [] [] [] [] [] [] []]; reflexivity. Qed.

Lemma lower_idem s : lower (lower s) = lower s.
Proof. induction s as [|c s IH]; [reflexivity|]. simpl. by rewrite lower_ascii_idem, IH. Qed.

Lemma lower_length s : String.length (lower s) = String.length s.
Proof. induction s as [|c s IH]; [reflexivity|]. simpl. by rewrite IH. Qed.

Lemma from_last_dot_lower s : from_last_dot (lower s) = lower <$> from_last_dot s.
Proof.
  induction s as [|c s IH]; [reflexivity|]. simpl. rewrite IH.
  destruct (from_last_dot s) as [t|]; simpl; [reflexivity|].
  rewrite lower_ascii_dot. by destruct (Ascii.eqb c ".").
Qed.

Lemma suffix_lower n : suffix (lower n) = lower (suffix n).
Proof.
  destruct n as [|c rest]; [reflexivity|]. simpl. rewrite from_last_dot_lower.
  destruct (from_last_dot rest) as [t|]; simpl; [|reflexivity].
  rewrite lower_length. by destruct (1 <? String.length t)%nat.
Qed.

(** X13.  Whether an entry counts as a photo does not depend on the case
    of its name: the entry and the entry with its name in lower case are
    treated alike. *)
Theorem is_photo_case_insensitive (n : string) (regular : bool) :
  is_photo (mkEntry (lower n) regular) = is_photo (mkEntry n regular).
Proof. unfold is_photo. simpl. by rewrite suffix_lower, lower_idem. Qed.

Lemma from_last_dot_split s t : from_last_dot s = Some t → ∃ pre, s = (pre ++ t)%string.
Proof.
  revert t. induction s as [|c s IH]; intros t; simpl; [discriminate|].
  destruct (from_last_dot s) as [t'|].
  - intros H. injection H as <-. destruct (IH t' eq_refl) as [pre ->].
    by exists (String c pre).
  - destruct (Ascii.eqb c "."); [|discriminate].
    intros H. injection H as <-. by exists EmptyString.
Qed.

(** X14.  A photo is a regular file whose name is a non-empty stem
    followed by an extension that, in lower case, is one of the six
    recognized ones: a name that is nothing but an extension, such as
    [.jpg], is not a photo. *)
Theorem is_photo_has_stem (e : entry) :
  is_photo e = true →
  is_file e = true
  ∧ ∃ stem ext, name e = (stem ++ ext)%string ∧ stem ≠ EmptyString
                ∧ lower ext ∈ PHOTO_EXTENSIONS.
Proof.
  unfold is_photo. intros H. apply andb_true_iff in H as [Hfile Hext].
  apply bool_decide_eq_true in Hext. split; [exact Hfile|].
  destruct (name e) as [|c rest] eqn:Hname.
  { simpl in Hext. exfalso. revert Hext. unfold PHOTO_EXTENSIONS.
    rewrite !elem_of_cons, elem_of_nil. intros H. repeat destruct H as [H|H]; done. }
  simpl in Hext. destruct (from_last_dot rest) as [t|] eqn:Ht.
  - destruct (1 <? String.length t)%nat.
    + destruct (from_last_dot_split rest t Ht) as [pre ->].
      exists (String c pre), t. by repeat split.
    + simpl in Hext. exfalso. revert Hext. unfold PHOTO_EXTENSIONS.
      rewrite !elem_of_cons, elem_of_nil. intros H. repeat destruct H as [H|H]; done.
  - simpl in Hext. exfalso. revert Hext. unfold PHOTO_EXTENSIONS.
    rewrite !elem_of_cons, elem_of_nil. intros H. repeat destruct H as [H|H]; done.
Qed.

Lemma is_photo_has_stem_witness :
  is_file (mkEntry "IMG_0001.JPG" true) = true
  ∧ ∃ stem ext, "IMG_0001.JPG" = (stem ++ ext)%string ∧ stem ≠ EmptyString
                ∧ lower ext ∈ PHOTO_EXTENSIONS.
Proof.
  apply (is_photo_has_stem (mkEntry "IMG_0001.JPG" true)). reflexivity.
Defined.

(** ** After validation *)

(** X15.  A time text that passes [validate_time_format] splits at its
    colon into an hour below 24 and a minute below 60, the very numbers
    [strptime] read, and putting them on any date cannot fail: the
    parsing that follows the validation never raises. *)
Theorem validated_time_never_raises (time_str : string) :
  validate_time_format time_str = true →
  ∃ h m, strptime_HM time_str = Ok (h, m)
         ∧ hour_minute time_str = Ok (h, m)
         ∧ 0 ≤ h < 24 ∧ 0 ≤ m < 60
         ∧ ∀ now, replace_time now h m = Ok (mkDatetime (ordinal now) (clock_us h m)).
Proof.
  intros Hvalid. apply validate_time_format_strptime in Hvalid as (h & m & Hs).
  destruct (strptime_HM_hour_minute time_str h m Hs) as (Hhm & Hh & Hm).
  exists h, m. split; [exact Hs|]. split; [exact Hhm|]. split; [exact Hh|].
  split; [exact Hm|]. intros now. unfold replace_time.
  destruct ((0 <=? h) && (h <? 24) && (0 <=? m) && (m <? 60)) eqn:E; [reflexivity|].
  repeat (apply andb_false_iff in E as [E|E]); lia.
Qed.

Lemma validated_time_never_raises_witness :
  ∃ h m, strptime_HM "7:05" = Ok (h, m) ∧ hour_minute "7:05" = Ok (h, m)
         ∧ 0 ≤ h < 24 ∧ 0 ≤ m < 60.
Proof.
  destruct (validated_time_never_raises "7:05" eq_refl) as (h & m & H1 & H2 & H3 & H4 & _).
  exists h, m. exact (conj H1 (conj H2 (conj H3 H4))).
Defined.

Lemma mapM_result_length {A B} (f : A → result B) (l : list A) (k : list B) :
  mapM f l = Ok k → length k = length l.
Proof.
  revert k. induction l as [|x l IH]; intros k; simpl.
  - intros H. by injection H as <-.
  - destruct (f x) as [y|e]; simpl; [|discriminate].
    destruct (mapM f l) as [k'|e]; simpl; [|discriminate].
    intros H. injection H as <-. simpl. f_equal. by apply IH.
Qed.

(** X16.  Whatever the time text, the count (or its absence) and the
    day, computing the schedule never raises; the result is in ascending
    order, has at most 100 entries, and every entry lies on the date of
    the clock reading. *)
Theorem switch_times_sorted_bounded (now : datetime) (main_time : string)
    (switches_per_day : result Z) :
  ∃ times,
    get_switch_times now main_time switches_per_day = Ok times
    ∧ StronglySorted dt_le times
    ∧ (length times ≤ 100)%nat
    ∧ ∀ t, t ∈ times → ordinal t = ordinal now.
Proof.
  assert (∀ A (P : list A → Prop), P [] → ∃ times : list A, Ok [] = Ok times ∧ P times)
    as Hnil by (intros A P HP; by exists []).
  assert (StronglySorted dt_le [] ∧ (length (@nil datetime) ≤ 100)%nat
          ∧ ∀ t, t ∈ @nil datetime → ordinal t = ordinal now) as Hempty.
  { split; [constructor|]. split; [simpl; lia|]. intros t Ht. by apply elem_of_nil in Ht. }
  unfold get_switch_times.
  destruct (validate_time_format main_time); simpl; [|by exists []].
  destruct switches_per_day as [n|e]; simpl; [|by exists []].
  destruct ((n <=? 0) || (100 <? n)) eqn:Hn; [by exists []|].
  apply orb_false_iff in Hn as [Hn1 Hn2].
  destruct (hour_minute main_time) as [[h m]|e]; simpl; [|by exists []].
  unfold replace_time.
  destruct ((0 <=? h) && (h <? 24) && (0 <=? m) && (m <? 60)); simpl; [|by exists []].
  destruct (n =? 1).
  - eexists. split; [reflexivity|]. split; [repeat constructor|].
    split; [simpl; lia|]. intros t Ht. apply list_elem_of_singleton in Ht. by subst t.
  - destruct (mapM _ (seqZ 0 n)) as [times|e] eqn:Hm; simpl; [|by exists []].
    eexists. split; [reflexivity|]. split; [apply StronglySorted_merge_sort; apply _|].
    split.
    + rewrite merge_sort_Permutation, length_fmap, (mapM_result_length _ _ _ Hm).
      rewrite length_seqZ. lia.
    + intros t Ht. rewrite merge_sort_Permutation in Ht.
      apply list_elem_of_fmap in Ht as (t0 & -> & _). reflexivity.
Qed.

(** ** Flushing the date cache *)


(** ** A selection under cancellation *)

Lemma unviewed_photos_flag_up photos w :
  flag_up w → unviewed_photos photos w = ([], w).
Proof.
  intros Hup. destruct photos as [|p photos]; [reflexivity|].
  simpl. by rewrite (poll_flag_up w Hup).
Qed.

Lemma photo_with_date_gen_flag_up calc photos n w :
  flag_up w → photo_with_date_gen calc photos n w = ([], n, w).
Proof.
  intros Hup. destruct photos as [|p photos]; [reflexivity|].
  simpl. by rewrite (poll_flag_up w Hup).
Qed.

Lemma all_photos_with_date_flag_up calc photos n w :
  flag_up w → all_photos_with_date calc photos n w = ([], n, w).
Proof.
  intros Hup. destruct photos as [|p photos]; [reflexivity|].
  simpl. by rewrite (poll_flag_up w Hup).
Qed.

Lemma draw_hist count unviewed w : hist (draw count unviewed w).2 = hist w.
Proof.
  unfold draw. by destruct (sample (rng w) unviewed (count `min` length unviewed)).
Qed.

Lemma reset_viewed_empty w : viewed_photos (hist (reset_viewed w)) = ∅.
Proof.
  unfold reset_viewed, save_viewed_photos, set_viewed. simpl.
  by destruct (log_writable (hist w)).
Qed.

(** X18.  With the cancellation flag up, a selection takes its cut-short
    scan for exhaustion in every mode: it empties the viewed set.  A date
    mode then returns no photo; Random mode returns a draw from the whole
    library. *)
Theorem cancelled_selection_resets_history (calc : string → Z) (count : Z)
    (mode : string) (w : world) :
  flag_up w →
  viewed_photos (hist (select_photos calc count mode w).2) = ∅
  ∧ (mode ≠ "Random" → (select_photos calc count mode w).1 = [])
  ∧ (mode = "Random" →
     select_photos calc count mode w
     = draw (clamp_count count) (iter_photos (library (fs w))) (reset_viewed w)).
Proof.
  intros Hup.
  assert ((0 <? clamp_count count)%nat = true) as Hpos.
  { apply Nat.ltb_lt. pose proof (clamp_count_range count). lia. }
  unfold select_photos.
  destruct (String.eqb mode "Random") eqn:Hmode.
  - apply String.eqb_eq in Hmode.
    rewrite (unviewed_photos_flag_up _ w Hup). cbn [length]. rewrite Hpos.
    split; [by rewrite draw_hist, reset_viewed_empty|]. split; [done|reflexivity].
  - apply String.eqb_neq in Hmode.
    rewrite (photo_with_date_gen_flag_up calc _ 0%nat w Hup).
    assert (∀ rank : nat → list dated → list dated,
              rank = nlargest ∨ rank = nsmallest →
              snd <$> rank (clamp_count count) [] = []) as Hrank
      by (intros rank [-> | ->]; reflexivity).
    set (rank := if String.eqb mode "Newest" then nlargest else nsmallest).
    assert (rank = nlargest ∨ rank = nsmallest) as Hr
      by (unfold rank; destruct (String.eqb mode "Newest"); [by left|by right]).
    rewrite (Hrank rank Hr). cbn [length]. rewrite Hpos.
    assert (flag_up (reset_viewed (flush_cache w))) as Hup' by exact Hup.
    rewrite (all_photos_with_date_flag_up calc _ 0%nat _ Hup').
    rewrite (Hrank rank Hr). cbn [fst snd].
    split; [apply (reset_viewed_empty (flush_cache w))|]. split; [done|congruence].
Qed.

Lemma cancelled_selection_resets_history_witness :
  viewed_photos (hist (with_ctl (mkControl true true None) three_photos)) ≠ ∅
  ∧ viewed_photos
      (hist (select_photos name_length 2 "Oldest"
               (with_ctl (mkControl true true None) three_photos)).2) = ∅
  ∧ (select_photos name_length 2 "Oldest"
       (with_ctl (mkControl true true None) three_photos)).1 = [].
Proof.
  destruct (cancelled_selection_resets_history name_length 2 "Oldest"
              (with_ctl (mkControl true true None) three_photos)
              (conj eq_refl eq_refl)) as (H1 & H2 & _).
  split; [|split; [exact H1|apply H2; discriminate]].
  intros H. assert (KStr "a.jpg" ∈ (∅ : gset pykey)) as Hin
    by (rewrite <- H; vm_compute; reflexivity).
  by apply not_elem_of_empty in Hin.
Defined.

(** ** The first dated tag *)

(** X19.  With the imaging library present and the file readable as an
    image, a DateTimeOriginal tag that holds a true value decides the
    metadata step alone: when it parses, its timestamp is the date; when
    it does not, the resolver goes on to the file-system time (or the
    wall clock) without trying DateTimeDigitized or DateTime. *)
Theorem first_dated_tag_decides (os_name_nt : bool)
    (strptime_timestamp : string → result Z) (p : probe)
    (exif : gmap Z exif_value) (v : exif_value) :
  image_exif p = Ok exif → exif !! 36867 = Some v → exif_truthy v = true →
  _calculate_photo_date true os_name_nt strptime_timestamp p
  = match parse_exif strptime_timestamp v with
    | Ok t => Ok t
    | Raise _ =>
        Ok (match path_stat p with
            | Ok st => stat_time os_name_nt st
            | Raise _ => clock p
            end)
    end.
Proof.
  intros Himg Htag Htrue.
  unfold _calculate_photo_date, exif_lookup. rewrite Himg.
  assert (first_dated_tag exif_tags exif = Some v) as Hfirst
    by (unfold exif_tags; cbn [first_dated_tag]; by rewrite Htag, Htrue).
  cbv beta iota delta [mbind result_bind Py.try_except].
  rewrite Hfirst.
  destruct (parse_exif strptime_timestamp v) as [t|e]; [reflexivity|].
  by destruct (path_stat p).
Qed.

Lemma first_dated_tag_decides_witness :
  _calculate_photo_date true false (fun _ => Raise ValueError)
    (mkProbe (Ok (<[36867 := ExifText "yesterday"]>
                    (<[306 := ExifText "2020:01:02 03:04:05"]> ∅)))
             (Ok (mkStat None 11 22)) 33)
  = Ok 22.
Proof.
  apply (first_dated_tag_decides false (fun _ => Raise ValueError)
           (mkProbe (Ok (<[36867 := ExifText "yesterday"]>
                           (<[306 := ExifText "2020:01:02 03:04:05"]> ∅)))
                    (Ok (mkStat None 11 22)) 33)
           _ (ExifText "yesterday") eq_refl); reflexivity.
Defined.
